(** * deadbeef-lyricbar: the lyrics resolution pipeline of [utils.cpp]

    A shallow embedding of [src/utils.cpp]: the cache file store, the
    script provider, the azlyrics scrape provider (fetch, title retry
    loop, extraction and cleaning) and the orchestrator [update_lyrics].

    Conventions.
    - A [std::string] is a list of bytes ([ascii]).  A [Glib::ustring]
      that is only stored and handed on is represented by its bytes; where
      the code walks a ustring character by character (lower-casing,
      [alphadigitize], the title truncation) it is a list of code points.
    - The functions of GLib the code uses on characters and strings are
      the fields of the record [glib]; what DeaDBeeF, libsoup, the spawned
      process and the file system answer are the fields of [host].  Every
      call to the host is recorded in a trace, so that "was invoked" and
      "was invoked before" are statements about the trace.
    - C++ exceptions are an outcome of the computation monad [M]; a
      [try]/[catch] block is [try_catch] with the handler's class test. *)

From Stdlib Require Import Ascii String ZArith Lia.
From stdpp Require Import base option list gmap strings.
From Equations Require Import Equations.
From Equations.Prop Require Import Logic.

Local Open Scope Z_scope.

(** ** Strings *)

Abbreviation std_string := (list ascii).
Definition gunichar := Z.
Abbreviation ustring := (list gunichar).

(** A string literal as a [std::string]. *)
Definition str (s : string) : std_string := list_ascii_of_string s.

Definition newline : ascii := "010".
Definition dquote : ascii := "034".

(** Code point of an ASCII character, as [gunichar]. *)
Definition uchar (c : ascii) : gunichar := Z.of_N (N_of_ascii c).

Definition ascii_eqb (a b : ascii) : bool := Ascii.eqb a b.

(** [std::replace(first, last, old, new)] *)
Definition replace (old new : ascii) (s : std_string) : std_string :=
  map (fun c => if ascii_eqb c old then new else c) s.

(** [s.resize(n)] on a byte string: cut, or pad with NUL. *)
Definition resize (s : std_string) (n : nat) : std_string :=
  take n s ++ replicate (n - length s) "000"%char.

(** ** The GLib functions the code calls *)

Record glib := {
  g_unichar_isalpha : gunichar -> bool;
  g_unichar_isdigit : gunichar -> bool;
  (** the characters of a ustring built from UTF-8 bytes *)
  ustring_chars : std_string -> ustring;
  (** [ustring::lowercase()] *)
  ustring_lowercase : ustring -> ustring;
  (** [uri_escape_string(s, {}, false)] *)
  uri_escape_string : ustring -> std_string;
  (** [ustring::validate()] *)
  ustring_validate : std_string -> bool
}.

(** ** Cache file names (utils.cpp 29-41) *)

(** [lyrics_dir] is fixed when the plugin is loaded (from the process
    environment); it is an argument here. *)
Definition cached_filename (lyrics_dir artist title : std_string) : std_string :=
  let artist := replace "/" "_" artist in
  let title := replace "/" "_" title in
  lyrics_dir ++ artist ++ "-"%char :: title.

(** ** alphadigitize (utils.cpp 146-152) *)

Definition alnum (G : glib) (c : gunichar) : bool :=
  g_unichar_isalpha G c || g_unichar_isdigit G c.

(** The loop pushes the kept characters to the back of [res]; the final
    assignment [s = res] is the returned value. *)
Definition alphadigitize (G : glib) (s : ustring) : ustring :=
  fold_left (fun res c => if alnum G c then res ++ [c] else res) s [].

(** ** Computations: file store, trace of external calls, exceptions *)

Inductive exn :=
| FileError                      (* Glib::FileError, derived from Glib::Error *)
| SpawnError                     (* the Glib::Error of spawn_command_line_sync *)
| RuntimeError (what : string).  (* std::runtime_error *)

(** [catch (const Glib::Error&)] *)
Definition is_glib_error (e : exn) : bool :=
  match e with
  | FileError | SpawnError => true
  | RuntimeError _ => false
  end.

(** [catch (const FileError&)] *)
Definition is_file_error (e : exn) : bool :=
  match e with
  | FileError => true
  | _ => false
  end.

Inductive event :=
| EvFindMeta (key : string)               (* deadbeef->pl_find_meta(track, key) *)
| EvConfGetStr (key : string)             (* deadbeef->conf_get_str(key, ...) *)
| EvTfCompile (script : std_string)       (* deadbeef->tf_compile *)
| EvTfEval (code : std_string)            (* deadbeef->tf_eval *)
| EvSpawn (command_line : std_string)     (* spawn_command_line_sync *)
| EvHttpGet (uri : std_string)            (* soup_session_send of a GET *)
| EvFileGetContents (filename : std_string)
| EvOfstream (filename : std_string)      (* ofstream t(filename) *)
| EvSetLyrics (text : std_string).        (* set_lyrics(track, text) *)

Record state := {
  files : gmap std_string std_string;
  trace : list event
}.

Inductive outcome (A : Type) :=
| Returned (a : A)
| Thrown (e : exn)
| AssertFailed.
Arguments Returned {A} a.
Arguments Thrown {A} e.
Arguments AssertFailed {A}.

Definition M (A : Type) : Type := state -> outcome A * state.

Definition ret {A} (a : A) : M A := fun s => (Returned a, s).

Definition bind {A B} (m : M A) (k : A -> M B) : M B :=
  fun s =>
    match m s with
    | (Returned a, s') => k a s'
    | (Thrown e, s') => (Thrown e, s')
    | (AssertFailed, s') => (AssertFailed, s')
    end.

Definition throw {A} (e : exn) : M A := fun s => (Thrown e, s).

(** [try { m } catch (const C&) { h }], [catches] being the test "is a C". *)
Definition try_catch {A} (m : M A) (catches : exn -> bool) (h : M A) : M A :=
  fun s =>
    match m s with
    | (Thrown e, s') => if catches e then h s' else (Thrown e, s')
    | r => r
    end.

(** A failed [assert]. *)
Definition assert_fail {A} : M A := fun s => (AssertFailed, s).

Definition lookup_file (filename : std_string) : M (option std_string) :=
  fun s => (Returned (files s !! filename), s).

Definition write_file (filename contents : std_string) : M unit :=
  fun s => (Returned tt,
            {| files := <[filename := contents]> (files s); trace := trace s |}).

Definition emit (e : event) : M unit :=
  fun s => (Returned tt, {| files := files s; trace := trace s ++ [e] |}).

#[export] Instance M_ret : MRet M := @ret.
#[export] Instance M_bind : MBind M := fun A B k m => bind m k.

(** ** The host: DeaDBeeF, libsoup, the process and file APIs *)

(** What [g_input_stream_read] can return: [nbytes > 0] bytes, [0] at the
    end of the stream (no data), [-1] on error. *)
Inductive read_result :=
| ReadBytes (data : std_string)
| ReadError.

Definition nbytes (r : read_result) : Z :=
  match r with
  | ReadBytes data => Z.of_nat (length data)
  | ReadError => -1
  end.

Definition read_data (r : read_result) : std_string :=
  match r with
  | ReadBytes data => data
  | ReadError => []
  end.

(** The answer to one GET: the stream returned by [soup_session_send]
    ([None] is the null pointer), [msg->status_code], and the successive
    results of reading the stream; reads past the list return 0. *)
Record http_response := {
  stream : option (list read_result);
  status_code : N
}.

Inductive spawn_result :=
| SpawnFailed
| Spawned (standard_output : std_string) (exit_status : Z).

Record host := {
  (** metadata of the track being resolved *)
  pl_find_meta : string -> option std_string;
  (** configured value of a key, [None] when unset *)
  conf_value : string -> option std_string;
  tf_compile : std_string -> option std_string;
  (** returned length and the output buffer *)
  tf_eval : std_string -> Z * std_string;
  spawn_command_line_sync : std_string -> spawn_result;
  soup_session_send : std_string -> http_response;
  (** whether [ofstream t(filename)] opens *)
  ofstream_opens : std_string -> bool;
  (** [_( )] *)
  gettext : string -> std_string;
  lyrics_dir : std_string
}.

(** ** fetch_file_as_chrome (utils.cpp 157-184) *)

Definition MAX_FILE_SIZE : Z := Z.shiftl 1 20.

(** The [while (true)] loop over the reads of the stream; [res] is the
    body accumulated so far.  The loop ends at the first read that does
    not return [nbytes > 0]. *)
Fixpoint read_all (reads : list read_result) (res : std_string) : M std_string :=
  match reads with
  | [] => ret res
  | r :: reads' =>
      if 0 <? nbytes r then
        if Z.of_nat (length res) + nbytes r >? MAX_FILE_SIZE then
          throw (RuntimeError "file too large")
        else read_all reads' (res ++ read_data r)
      else if nbytes r =? 0 then ret res
      else assert_fail
  end.

Definition fetch_file_as_chrome (H : host) (uri : std_string) : M (option std_string) :=
  emit (EvHttpGet uri);;
  let msg := soup_session_send H uri in
  match stream msg with
  | None => ret None
  | Some reads =>
      if negb (status_code msg / 100 =? 2)%N then ret None
      else res ← read_all reads []; ret (Some res)
  end.

(** ** The cache store (utils.cpp 59-79) *)

(** [Glib::file_get_contents]: the contents, or a [FileError].  The store
    [files] gives the contents of the files there are; a [FileError] for
    a file that exists (one that cannot be read) is outside the model. *)
Definition file_get_contents (filename : std_string) : M std_string :=
  emit (EvFileGetContents filename);;
  file ← lookup_file filename;
  match file with
  | Some contents => ret contents
  | None => throw FileError
  end.

Definition load_cached_lyrics (H : host) (artist title : std_string)
  : M (option std_string) :=
  let filename := cached_filename (lyrics_dir H) artist title in
  try_catch (contents ← file_get_contents filename; ret (Some contents))
            is_file_error
            (ret None).

Definition save_cached_lyrics (H : host) (artist title lyrics : std_string) : M bool :=
  let filename := cached_filename (lyrics_dir H) artist title in
  emit (EvOfstream filename);;
  if negb (ofstream_opens H filename) then ret false
  else write_file filename lyrics;; ret true.

(** ** Embedded lyrics (utils.cpp 90-99) *)

Definition find_meta (H : host) (key : string) : M (option std_string) :=
  emit (EvFindMeta key);; ret (pl_find_meta H key).

(** [a ?: b]: [b] is evaluated only when [a] is null. *)
Definition elvis {A} (a b : M (option A)) : M (option A) :=
  x ← a;
  match x with
  | Some v => ret (Some v)
  | None => b
  end.

Definition get_lyrics_from_metadata (H : host) : M (option std_string) :=
  elvis (find_meta H "unsynced lyrics")
        (elvis (find_meta H "UNSYNCEDLYRICS") (find_meta H "lyrics")).

(** ** The script provider (utils.cpp 101-144) *)

(** [conf_get_str(key, nullptr, &buf[0], buf.size())] as the C string left
    in the buffer: the value cut to the buffer, empty when unset. *)
Definition conf_get_str (H : host) (key : string) (size : nat) : M std_string :=
  emit (EvConfGetStr key);;
  ret (match conf_value H key with
       | Some v => take (size - 1) v
       | None => []
       end).

Definition spawn_sync (H : host) (command_line : std_string) : M (std_string * Z) :=
  emit (EvSpawn command_line);;
  match spawn_command_line_sync H command_line with
  | SpawnFailed => throw SpawnError
  | Spawned out status => ret (out, status)
  end.

Definition get_lyrics_from_script (G : glib) (H : host) : M (option std_string) :=
  buf ← conf_get_str H "lyricbar.customcmd" 4096;
  if bool_decide (buf = []) then ret None
  else
    emit (EvTfCompile buf);;
    match tf_compile H buf with
    | None => ret None
    | Some tf_code =>
        emit (EvTfEval tf_code);;
        let '(command_len, buf) := tf_eval H tf_code in
        if command_len <? 0 then ret None
        else
          let buf := resize buf (Z.to_nat command_len) in
          r ← try_catch (x ← spawn_sync H buf; ret (Some x)) is_glib_error (ret None);
          match r with
          | None => ret None
          | Some (script_output, exit_status) =>
              if bool_decide (script_output = []) || negb (exit_status =? 0)
              then ret None
              else
                let res := script_output in
                if negb (ustring_validate G res) then ret None
                else ret (Some res)
          end
    end.

(** ** Regular expressions (std::regex, ECMAScript grammar)

    The fragment of the grammar the four patterns of the scrape provider
    use, with the matching order of a backtracking matcher: [matches r]
    lists, in the order in which they are tried, the ways [r] can match
    at the start of the subject; the first one that lets the whole
    pattern match is the match.  A way to match is the rest of the
    subject after it, with the text of the capture group if it was
    passed. *)

Inductive regex :=
| Chr (c : ascii)                           (* an ordinary character *)
| Dot                                       (* [.] *)
| Star (set : ascii -> bool) (greedy : bool) (* [X*] and [X*?], X one character *)
| Opt (r : regex)                           (* [r?] *)
| Cat (r1 r2 : regex)
| Group (r : regex).                        (* [(r)] *)

Definition position : Type := std_string * option std_string.

(** [\s]: the space class of the "C" locale. *)
Definition is_space (c : ascii) : bool :=
  let n := N_of_ascii c in ((n =? 32) || ((9 <=? n) && (n <=? 13)))%N.

(** [.]: any character but the line terminators. *)
Definition is_dot (c : ascii) : bool :=
  let n := N_of_ascii c in negb ((n =? 10) || (n =? 13))%N.

(** [[^]]: any character. *)
Definition any_char (c : ascii) : bool := true.

Definition not_gt (c : ascii) : bool := negb (ascii_eqb c ">").

Definition step_if (p : ascii -> bool) (s : std_string) : list std_string :=
  match s with
  | c :: s' => if p c then [s'] else []
  | [] => []
  end.

(** The rests after [X*]: longest first when greedy, shortest first when
    not. *)
Fixpoint star_rests (set : ascii -> bool) (greedy : bool) (s : std_string)
  : list std_string :=
  match s with
  | c :: s' =>
      if set c then
        if greedy then star_rests set greedy s' ++ [s]
        else s :: star_rests set greedy s'
      else [s]
  | [] => [s]
  end.

Fixpoint matches (r : regex) (p : position) : list position :=
  match r with
  | Chr c => (λ s', (s', p.2)) <$> step_if (ascii_eqb c) p.1
  | Dot => (λ s', (s', p.2)) <$> step_if is_dot p.1
  | Star set greedy => (λ s', (s', p.2)) <$> star_rests set greedy p.1
  | Opt r => matches r p ++ [p]
  | Cat r1 r2 => matches r1 p ≫= matches r2
  | Group r =>
      (λ q : position, (q.1, Some (take (length p.1 - length q.1) p.1)))
        <$> matches r p
  end.

(** What a successful [regex_search] leaves in [smatch]: the text before
    the match, the match, sub-match 1 and the text after the match. *)
Record smatch := {
  m_prefix : std_string;
  m_whole : std_string;
  m_sub1 : std_string;
  m_suffix : std_string
}.

(** The match starting at the beginning of [s], if there is one. *)
Definition match_here (r : regex) (s : std_string) : option (std_string * std_string * std_string) :=
  match matches r (s, None) with
  | (rest, cap) :: _ =>
      Some (take (length s - length rest) s, default [] cap, rest)
  | [] => None
  end.

(** [regex_search]: the match at the leftmost position that has one;
    [before] is the text already passed, reversed. *)
Fixpoint regex_search_from (r : regex) (before : std_string) (s : std_string)
  : option smatch :=
  match match_here r s with
  | Some (whole, sub1, rest) =>
      Some {| m_prefix := rev before; m_whole := whole;
              m_sub1 := sub1; m_suffix := rest |}
  | None =>
      match s with
      | c :: s' => regex_search_from r (c :: before) s'
      | [] => None
      end
  end.

Definition regex_search (r : regex) (s : std_string) : option smatch :=
  regex_search_from r [] s.

(** [regex_replace(s, r, fmt)] with the default flags, for a format
    without [$]: every match, found left to right from the end of the
    previous one, is replaced by [fmt]; the text between matches is
    copied.  After an empty match the next character is copied (the
    patterns below have no empty match).  [n] bounds the number of
    matches. *)
Fixpoint regex_replace_n (n : nat) (r : regex) (fmt s : std_string) : std_string :=
  match n with
  | O => s
  | S n' =>
      match regex_search r s with
      | None => s
      | Some m =>
          m_prefix m ++ fmt ++
          match m_whole m, m_suffix m with
          | [], c :: s' => c :: regex_replace_n n' r fmt s'
          | [], [] => []
          | _, s' => regex_replace_n n' r fmt s'
          end
      end
  end.

Definition regex_replace (s : std_string) (r : regex) (fmt : std_string) : std_string :=
  regex_replace_n (S (length s)) r fmt s.

(** A literal text. *)
Fixpoint lit_then (l : std_string) (r : regex) : regex :=
  match l with
  | [] => r
  | c :: l' => Cat (Chr c) (lit_then l' r)
  end.

Definition ws_then (r : regex) : regex := Cat (Star is_space true) r.

(** [<div>\s*<!--\s*Usage of azlyrics.com content[^]*?-->\s*([^]*?)\s*</div>] *)
Definition lyrics_expr : regex :=
  lit_then (str "<div>") (ws_then (lit_then (str "<!--") (ws_then
    (lit_then (str "Usage of azlyrics") (Cat Dot (lit_then (str "com content")
      (Cat (Star any_char false) (lit_then (str "-->") (ws_then
        (Cat (Group (Star any_char false))
             (ws_then (lit_then (str "</div") (Chr ">"))))))))))))).

(** [<br\s*/?\s*>] *)
Definition br_expr : regex :=
  lit_then (str "<br") (ws_then (Cat (Opt (Chr "/")) (ws_then (Chr ">")))).

(** [<[^>]*>] *)
Definition tag_expr : regex :=
  Cat (Chr "<") (Cat (Star not_gt true) (Chr ">")).

(** [&quot;] *)
Definition quot_expr : regex := lit_then (str "&quot") (Chr ";").

(** ** Extraction and cleaning (utils.cpp 228-246) *)

Definition extract_lyrics (doc : std_string) : option std_string :=
  match regex_search lyrics_expr doc with
  | None => None
  | Some m =>
      let lyrics := m_sub1 m in
      let lyrics := regex_replace lyrics br_expr [] in
      let lyrics := regex_replace lyrics tag_expr [] in
      let lyrics := regex_replace lyrics quot_expr [dquote] in
      if bool_decide (lyrics = []) then None
      else if negb (bool_decide (last lyrics = Some newline))
           then Some (lyrics ++ [newline])
           else Some lyrics
  end.

(** ** The scrape provider (utils.cpp 186-247) *)

(** [ustring::compose(AZL_FMT, artist, title)] *)
Definition azl_url (artist title : std_string) : std_string :=
  str "https://www.azlyrics.com/lyrics/" ++ artist ++ "/"%char :: title ++ str ".html".

Definition is_bracket (c : gunichar) : bool :=
  (c =? uchar "(") || (c =? uchar ")") || (c =? uchar "[") || (c =? uchar "]").

(** [title.resize(title.size() - 1)] *)
Definition pop_back (title : ustring) : ustring := take (length title - 1) title.

(** The inner [while]: drop characters from the right until the title is
    empty or ends with a bracket. *)
Equations? drop_to_bracket (title : ustring) : ustring by wf (length title) lt :=
drop_to_bracket title with inspect (last title) := {
  | exist _ (Some c) E with is_bracket c := {
      | true := title;
      | false := drop_to_bracket (pop_back title) };
  | exist _ None E := title }.
Proof.
  unfold pop_back. destruct title as [|x t]; [discriminate|].
  rewrite length_take. simpl. lia.
Qed.

(** The [for (;;)] loop: [Some doc] when it is left by [break], [None]
    when the function returns the empty option from inside it. *)
Equations? fetch_retry (G : glib) (H : host) (artist title : ustring) (s : state)
  : outcome (option std_string) * state by wf (length title) lt :=
fetch_retry G H artist title s
  with inspect (fetch_file_as_chrome H
                  (azl_url (uri_escape_string G artist)
                           (uri_escape_string G (alphadigitize G title))) s) := {
  | exist _ (Returned (Some doc), s') _ := (Returned (Some doc), s');
  | exist _ (Returned None, s') _ with decide (drop_to_bracket title = []) := {
      | left _ := (Returned None, s');
      | right _ := fetch_retry G H artist (pop_back (drop_to_bracket title)) s' };
  | exist _ (Thrown e, s') _ := (Thrown e, s');
  | exist _ (AssertFailed, s') _ := (AssertFailed, s') }.
Proof.
  assert (Hle : forall t : ustring, (length (drop_to_bracket t) <= length t)%nat).
  { clear. intros t0. funelim (drop_to_bracket t0); try lia.
    etransitivity; [eassumption|]. unfold pop_back. rewrite length_take. lia. }
  specialize (Hle title). unfold pop_back. rewrite length_take.
  destruct (drop_to_bracket title); [congruence | simpl in *; lia].
Qed.

Definition download_lyrics_from_azlyrics (G : glib) (H : host) : M (option std_string) :=
  artist_raw ← find_meta H "artist";
  title_raw ← find_meta H "title";
  match artist_raw, title_raw with
  | Some artist_raw, Some title_raw =>
      let artist := ustring_chars G artist_raw in
      let title := ustring_chars G title_raw in
      let artist := ustring_lowercase G artist in
      let title := ustring_lowercase G title in
      let artist := alphadigitize G artist in
      doc ← fetch_retry G H artist title;
      match doc with
      | None => ret None
      | Some doc => ret (extract_lyrics doc)
      end
  | _, _ => ret None
  end.

(** ** The orchestrator (utils.cpp 34, 249-283) *)

Definition set_lyrics (text : std_string) : M unit := emit (EvSetLyrics text).

Definition providers (G : glib) (H : host) : list (M (option std_string)) :=
  [get_lyrics_from_script G H; download_lyrics_from_azlyrics G H].

(** [for (auto f : providers)], followed by what comes after the loop when
    no provider returned lyrics. *)
Fixpoint try_providers (H : host) (fs : list (M (option std_string)))
  (artist title : std_string) : M unit :=
  match fs with
  | f :: fs' =>
      lyrics ← f;
      match lyrics with
      | Some lyrics =>
          set_lyrics lyrics;;
          save_cached_lyrics H artist title lyrics;;
          ret tt
      | None => try_providers H fs' artist title
      end
  | [] => set_lyrics (gettext H "Lyrics not found")
  end.

Definition update_lyrics (G : glib) (H : host) : M unit :=
  lyrics ← get_lyrics_from_metadata H;
  match lyrics with
  | Some lyrics => set_lyrics lyrics
  | None =>
      artist ← find_meta H "artist";
      title ← find_meta H "title";
      match artist, title with
      | Some artist, Some title =>
          lyrics ← load_cached_lyrics H artist title;
          match lyrics with
          | Some lyrics => set_lyrics lyrics
          | None =>
              set_lyrics (gettext H "Loading...");;
              try_providers H (providers G H) artist title
          end
      | _, _ => set_lyrics (gettext H "Lyrics not found")
      end
  end.

(** ** A concrete world for examples: GLib on ASCII text *)

Definition ascii_isalpha (c : gunichar) : bool :=
  ((65 <=? c) && (c <=? 90)) || ((97 <=? c) && (c <=? 122)).

Definition ascii_isdigit (c : gunichar) : bool := (48 <=? c) && (c <=? 57).

Definition ascii_tolower (c : gunichar) : gunichar :=
  if (65 <=? c) && (c <=? 90) then c + 32 else c.

Definition to_byte (c : gunichar) : ascii := ascii_of_N (Z.to_N c).

Definition hex_digit (n : Z) : ascii :=
  if n <? 10 then to_byte (48 + n) else to_byte (55 + n).

(** Letters, digits and [-._~] stay, any other character is [%XX]. *)
Definition ascii_escape (c : gunichar) : std_string :=
  if ascii_isalpha c || ascii_isdigit c
     || (c =? 45) || (c =? 46) || (c =? 95) || (c =? 126)
  then [to_byte c]
  else ["%"%char; hex_digit (c / 16); hex_digit (c mod 16)].

Definition ascii_glib : glib := {|
  g_unichar_isalpha := ascii_isalpha;
  g_unichar_isdigit := ascii_isdigit;
  ustring_chars := fmap uchar;
  ustring_lowercase := fmap ascii_tolower;
  uri_escape_string := λ s, s ≫= ascii_escape;
  ustring_validate := forallb (λ c, (N_of_ascii c <? 128)%N)
|}.

Definition ok_response (body : std_string) : http_response :=
  {| stream := Some [ReadBytes body]; status_code := 200 |}.

Definition not_found_response : http_response :=
  {| stream := Some [ReadBytes (str "not found")]; status_code := 404 |}.

(** A track with the given artist and title and no embedded lyrics, no
    script configured, and a site that answers [page] at [uri] only. *)
Definition scrape_host (artist title : string) (uri page : string) : host := {|
  pl_find_meta := λ key,
    if bool_decide (key = "artist"%string) then Some (str artist)
    else if bool_decide (key = "title"%string) then Some (str title)
    else None;
  conf_value := λ _, None;
  tf_compile := λ _, None;
  tf_eval := λ _, (-1, []);
  spawn_command_line_sync := λ _, SpawnFailed;
  soup_session_send := λ u,
    if bool_decide (u = str uri) then ok_response (str page)
    else not_found_response;
  ofstream_opens := λ _, true;
  gettext := str;
  lyrics_dir := str "/home/u/.cache/deadbeef/lyrics/"
|}.

Definition empty_state : state := {| files := ∅; trace := [] |}.

(** ** Notions used to state the properties *)

(** Two strings that differ only by [/] against [_] at some positions. *)
Definition slash_or_underscore (x y : ascii) : Prop :=
  x = y \/ (x = "/"%char /\ y = "_"%char) \/ (x = "_"%char /\ y = "/"%char).

Definition slash_equiv (a b : std_string) : Prop :=
  Forall2 slash_or_underscore a b.

(** A body of 257 reads of 4096 bytes: one read more than 1 MiB. *)
Definition oversize_chunks : list std_string :=
  replicate 257 (replicate 4096 "x"%char).

Definition oversize_response : http_response :=
  {| stream := Some (ReadBytes <$> oversize_chunks); status_code := 200 |}.

(** A track with artist and title, no embedded lyrics, no script, an
    empty cache, and a site that answers every request with
    [oversize_response]. *)
Definition oversize_host : host := {|
  pl_find_meta := λ key,
    if bool_decide (key = "artist"%string) then Some (str "Artist")
    else if bool_decide (key = "title"%string) then Some (str "Song")
    else None;
  conf_value := λ _, None;
  tf_compile := λ _, None;
  tf_eval := λ _, (-1, []);
  spawn_command_line_sync := λ _, SpawnFailed;
  soup_session_send := λ _, oversize_response;
  ofstream_opens := λ _, true;
  gettext := str;
  lyrics_dir := str "/home/u/.cache/deadbeef/lyrics/"
|}.

(** The state after the external calls [evs] that leave the files alone. *)
Definition log (s : state) (evs : list event) : state :=
  {| files := files s; trace := trace s ++ evs |}.

(** The external calls of the script provider. *)
Definition is_script_event (e : event) : bool :=
  match e with
  | EvConfGetStr _ | EvTfCompile _ | EvTfEval _ | EvSpawn _ => true
  | _ => false
  end.

(** A host whose script prints [output] and exits with [status]. *)
Definition script_host (output : string) (status : Z) : host := {|
  pl_find_meta := λ key,
    if bool_decide (key = "artist"%string) then Some (str "Artist")
    else if bool_decide (key = "title"%string) then Some (str "Song")
    else None;
  conf_value := λ key,
    if bool_decide (key = "lyricbar.customcmd"%string)
    then Some (str "getlyrics '%artist%' '%title%'") else None;
  tf_compile := λ script, Some script;
  tf_eval := λ _, (25, str "getlyrics 'Artist' 'Song'" ++ replicate 4071 "000"%char);
  spawn_command_line_sync := λ _, Spawned (str output) status;
  soup_session_send := λ _, ok_response (str
    "<div><!-- Usage of azlyrics.com content --> From the site </div>");
  ofstream_opens := λ _, true;
  gettext := str;
  lyrics_dir := str "/home/u/.cache/deadbeef/lyrics/"
|}.

(** The track carries no lyrics of its own. *)
Definition no_embedded_lyrics (H : host) : Prop :=
  pl_find_meta H "unsynced lyrics" = None
  /\ pl_find_meta H "UNSYNCEDLYRICS" = None
  /\ pl_find_meta H "lyrics" = None.

(** The metadata reads at the start of [update_lyrics] when the track has
    no embedded lyrics. *)
Definition metadata_reads : list event :=
  [EvFindMeta "unsynced lyrics"; EvFindMeta "UNSYNCEDLYRICS"; EvFindMeta "lyrics";
   EvFindMeta "artist"; EvFindMeta "title"].

(** The state in which the providers start: after the metadata reads, the
    failed cache read and the "Loading..." placeholder. *)
Definition searching (H : host) (artist title : std_string) (s : state) : state :=
  log s (metadata_reads
         ++ [EvFileGetContents (cached_filename (lyrics_dir H) artist title);
             EvSetLyrics (gettext H "Loading...")]).

(** The state after [lyrics] has been published and saved from [s]. *)
Definition published (H : host) (artist title lyrics : std_string) (s : state) : state :=
  let filename := cached_filename (lyrics_dir H) artist title in
  {| files := if ofstream_opens H filename then <[filename := lyrics]> (files s)
              else files s;
     trace := trace s ++ [EvSetLyrics lyrics; EvOfstream filename] |}.

(** A track without an artist tag, whose script and site would both
    deliver. *)
Definition untagged_host : host := {|
  pl_find_meta := λ key,
    if bool_decide (key = "title"%string) then Some (str "Song") else None;
  conf_value := conf_value (script_host "La la" 0);
  tf_compile := tf_compile (script_host "La la" 0);
  tf_eval := tf_eval (script_host "La la" 0);
  spawn_command_line_sync := spawn_command_line_sync (script_host "La la" 0);
  soup_session_send := soup_session_send (script_host "La la" 0);
  ofstream_opens := λ _, true;
  gettext := str;
  lyrics_dir := str "/home/u/.cache/deadbeef/lyrics/"
|}.

Definition is_http_get (e : event) : bool :=
  match e with
  | EvHttpGet _ => true
  | _ => false
  end.

(** No fetch from this host faults: every body read stays within the cap
    and no read fails. *)
Definition fetch_faultless (H : host) : Prop :=
  forall uri s, exists doc, (fetch_file_as_chrome H uri s).1 = Returned doc.

Definition no_bracket (t : ustring) : bool :=
  forallb (λ c, negb (is_bracket c)) t.

(** The page of the running example. *)
Definition example_page : string :=
  "<html><div><!-- Usage of azlyrics.com content by any third-party lyrics provider is prohibited. --> Line one<br>Line two &quot;quoted&quot; </div></html>".

Definition example_lyrics : std_string :=
  str "Line oneLine two " ++ [dquote] ++ str "quoted" ++ [dquote; newline].

(** The track "Song (Remix)" on a site that only has a page for "Song". *)
Definition remix_host : host :=
  scrape_host "Test/Artist" "Song (Remix)"
    "https://www.azlyrics.com/lyrics/testartist/song.html" example_page.

(** A track titled "(" on a site that has no page for it. *)
Definition paren_host : host :=
  scrape_host "Artist" "(" "https://www.azlyrics.com/lyrics/artist/song.html"
    example_page.

(** The rest of [s] after its first [>]. *)
Fixpoint after_gt (s : std_string) : option std_string :=
  match s with
  | [] => None
  | c :: s' => if ascii_eqb c ">" then Some s' else after_gt s'
  end.

Definition gt_in (s : std_string) : bool := existsb (λ c, ascii_eqb c ">") s.
Definition lt_in (s : std_string) : bool := existsb (λ c, ascii_eqb c "<") s.

(** Some [<] of [s] is followed, anywhere later, by a [>]: the text has a
    part that [tag_expr] matches. *)
Fixpoint has_tag (s : std_string) : bool :=
  match s with
  | [] => false
  | c :: s' => (ascii_eqb c "<" && gt_in s') || has_tag s'
  end.

(** The fragment of the end-to-end scenario, as it is written, and with
    the elision after the comment opener left out. *)
Definition scenario_fragment : string :=
  "<div><!--...Usage of azlyrics.com content...--> Line one<br>Line two &quot;quoted&quot; </div>".

Definition scenario_fragment_elided : string :=
  "<div><!--Usage of azlyrics.com content...--> Line one<br>Line two &quot;quoted&quot; </div>".

(** The text the scenario expects: with a space before the newline. *)
Definition scenario_lyrics : std_string :=
  str "Line oneLine two " ++ [dquote] ++ str "quoted" ++ [dquote]
  ++ str " " ++ [newline].

(** A fragment whose text ends in two line feeds before a last [<br>]. *)
Definition blank_line_fragment : std_string :=
  str "<div><!-- Usage of azlyrics.com content --> Line one" ++ [newline; newline]
  ++ str "<br> </div>".

(** The character a pattern ends with, when it ends with one. *)
Fixpoint last_chr (r : regex) : option ascii :=
  match r with
  | Chr c => Some c
  | Cat _ r2 => last_chr r2
  | _ => None
  end.

(** A 2xx answer whose second read fails. *)
Definition broken_response : http_response :=
  {| stream := Some [ReadBytes (str "<html>"); ReadError]; status_code := 200 |}.


(** ** is_cached and the "remove from cache" action (utils.cpp 43-46, 303-325) *)

(** [artist && title && access(cached_filename(artist, title), 0) == 0];
    a null pointer is [None]. *)
Definition is_cached (lyrics_dir : std_string) (fs : gmap std_string std_string)
    (artist title : option std_string) : bool :=
  match artist, title with
  | Some artist, Some title =>
      bool_decide (is_Some (fs !! cached_filename lyrics_dir artist title))
  | _, _ => false
  end.

(** An item of the playlist: whether it is selected, and its artist and
    title metadata. *)
Record playlist_item := {
  pl_is_selected : bool;
  item_artist : option std_string;
  item_title : option std_string
}.

(** The body of the [while (current)] loop for one item; [unlinks] tells
    whether [remove(filename)] succeeds (its result is not looked at). *)
Definition remove_item (lyrics_dir : std_string) (unlinks : std_string -> bool)
    (fs : gmap std_string std_string) (current : playlist_item)
  : gmap std_string std_string :=
  if pl_is_selected current then
    let artist := item_artist current in
    let title := item_title current in
    if is_cached lyrics_dir fs artist title then
      match artist, title with
      | Some artist, Some title =>
          let filename := cached_filename lyrics_dir artist title in
          if unlinks filename then delete filename fs else fs
      | _, _ => fs
      end
    else fs
  else fs.

(** [remove_from_cache_action(_, ctx)]: [selection] is the value of
    [DDB_ACTION_CTX_SELECTION], [playlist] what [plt_get_curr] returns
    with its items from first to last.  The result is the returned [int]
    and the files left. *)
Definition remove_from_cache_action (lyrics_dir : std_string)
    (unlinks : std_string -> bool) (selection ctx : Z)
    (playlist : option (list playlist_item)) (fs : gmap std_string std_string)
  : Z * gmap std_string std_string :=
  if ctx =? selection then
    match playlist with
    | Some items => (0, foldl (remove_item lyrics_dir unlinks) fs items)
    | None => (0, fs)
    end
  else (0, fs).

(** ** mkpath and ensure_lyrics_path_exists (utils.cpp 48-51, 285-301) *)

Definition EEXIST : Z := 17.

(** The directories that exist, and the [mkdir] calls made so far with
    their mode. *)
Record dir_state := {
  dirs : gset std_string;
  mkdir_calls : list (std_string * Z)
}.

(** [mkdir(dir, mode)]: [errno_of] gives the [errno] with which the call
    fails in the present state, [None] when it creates the directory. *)
Definition mkdir (errno_of : gset std_string -> std_string -> option Z)
    (dir : std_string) (mode : Z) (d : dir_state) : option Z * dir_state :=
  match errno_of (dirs d) dir with
  | Some errno =>
      (Some errno, {| dirs := dirs d; mkdir_calls := mkdir_calls d ++ [(dir, mode)] |})
  | None =>
      (None, {| dirs := {[dir]} ∪ dirs d;
                mkdir_calls := mkdir_calls d ++ [(dir, mode)] |})
  end.

(** The [while] loop of [mkpath]: [before] is [name.substr(0, pos)] and
    [rest] the text from [pos] on; the search for the next [/] goes
    through [rest] character by character. *)
Fixpoint mkpath_from (errno_of : gset std_string -> std_string -> option Z)
    (mode : Z) (before rest : std_string) (d : dir_state) : Z * dir_state :=
  match rest with
  | [] => (0, d)
  | c :: rest' =>
      if ascii_eqb c "/" then
        let dir := before in
        if bool_decide (dir = []) then
          mkpath_from errno_of mode (before ++ [c]) rest' d
        else
          match mkdir errno_of dir mode d with
          | (Some errno, d') =>
              if negb (errno =? EEXIST) then (errno, d')
              else mkpath_from errno_of mode (before ++ [c]) rest' d'
          | (None, d') => mkpath_from errno_of mode (before ++ [c]) rest' d'
          end
      else mkpath_from errno_of mode (before ++ [c]) rest' d
  end.

Definition mkpath (errno_of : gset std_string -> std_string -> option Z)
    (name : std_string) (mode : Z) (d : dir_state) : Z * dir_state :=
  mkpath_from errno_of mode [] name d.

(** [mkpath(lyrics_dir, 0755)], the result dropped. *)
Definition ensure_lyrics_path_exists
    (errno_of : gset std_string -> std_string -> option Z)
    (lyrics_dir : std_string) (d : dir_state) : dir_state :=
  (mkpath errno_of lyrics_dir 493 d).2.

(** ** Notions used to state the further properties *)

(** The proper, non-empty beginnings of [name] that end just before a
    [/], shortest first. *)
Definition slash_prefixes (name : std_string) : list std_string :=
  (λ i, take i name)
    <$> filter (λ i, i ≠ 0%nat ∧ name !! i = Some "/"%char) (seq 0 (length name)).

(** The calls of [mkdir] for the directories of a list, in turn: the
    next one after a call that succeeds or fails with [EEXIST], none
    after a call that fails in another way, whose [errno] is the result. *)
Fixpoint mkdir_in_turn (errno_of : gset std_string -> std_string -> option Z)
    (mode : Z) (paths : list std_string) (d : dir_state) : Z * dir_state :=
  match paths with
  | [] => (0, d)
  | dir :: paths' =>
      match mkdir errno_of dir mode d with
      | (Some errno, d') =>
          if negb (errno =? EEXIST) then (errno, d')
          else mkdir_in_turn errno_of mode paths' d'
      | (None, d') => mkdir_in_turn errno_of mode paths' d'
      end
  end.

Definition ENOTDIR : Z := 20.

(** A system like [exists_errno] below, but with a file in the place of
    [blocked]: [mkdir] fails with [EEXIST] for [blocked] itself and with
    [ENOTDIR] for everything under it. *)
Definition blocked_errno (blocked : std_string) (ds : gset std_string)
    (dir : std_string) : option Z :=
  if bool_decide (dir = blocked) then Some EEXIST
  else if bool_decide (blocked ++ ["/"%char] `prefix_of` dir) then Some ENOTDIR
  else if decide (dir ∈ ds) then Some EEXIST else None.

(** A system on which [mkdir] fails only for a directory that exists. *)
Definition exists_errno (ds : gset std_string) (dir : std_string) : option Z :=
  if decide (dir ∈ ds) then Some EEXIST else None.

(** The cache files of the selected items that have both tags. *)
Definition selected_keys (lyrics_dir : std_string) (items : list playlist_item)
  : list std_string :=
  omap (λ it,
          if pl_is_selected it then
            match item_artist it, item_title it with
            | Some artist, Some title => Some (cached_filename lyrics_dir artist title)
            | _, _ => None
            end
          else None) items.

(** The embedded lyrics: the first of the three fields that is present. *)
Definition embedded_lyrics (H : host) : option std_string :=
  match pl_find_meta H "unsynced lyrics" with
  | Some l => Some l
  | None =>
      match pl_find_meta H "UNSYNCEDLYRICS" with
      | Some l => Some l
      | None => pl_find_meta H "lyrics"
      end
  end.

Definition is_lyrics_read (e : event) : bool :=
  match e with
  | EvFindMeta key =>
      bool_decide (key = "unsynced lyrics"%string)
      || bool_decide (key = "UNSYNCEDLYRICS"%string)
      || bool_decide (key = "lyrics"%string)
  | _ => false
  end.

Definition is_spawn (e : event) : bool :=
  match e with
  | EvSpawn _ => true
  | _ => false
  end.

(** A fetch from this host never delivers: no stream, or a status
    outside 2xx. *)
Definition never_delivers (H : host) : Prop :=
  forall uri,
    stream (soup_session_send H uri) = None
    \/ (status_code (soup_session_send H uri) / 100)%N <> 2%N.

(** A track with artist and title for which the site has no page. *)
Definition silent_host : host := {|
  pl_find_meta := pl_find_meta remix_host;
  conf_value := conf_value remix_host;
  tf_compile := tf_compile remix_host;
  tf_eval := tf_eval remix_host;
  spawn_command_line_sync := spawn_command_line_sync remix_host;
  soup_session_send := λ _, not_found_response;
  ofstream_opens := ofstream_opens remix_host;
  gettext := str;
  lyrics_dir := lyrics_dir remix_host
|}.

(** The request of the retry loop for a title. *)
Definition request_for (G : glib) (artist title : ustring) : event :=
  EvHttpGet (azl_url (uri_escape_string G artist)
                     (uri_escape_string G (alphadigitize G title))).

(** The [/]-prefixes of [before ++ rest] that end inside [rest]. *)
Definition pending_prefixes (before rest : std_string) : list std_string :=
  (λ i, take i (before ++ rest))
    <$> filter (λ i, i ≠ 0%nat ∧ (before ++ rest) !! i = Some "/"%char)
          (seq (length before) (length rest)).

(** A playlist of three items for two cached tracks. *)
Definition example_playlist : list playlist_item :=
  [ {| pl_is_selected := true; item_artist := Some (str "AC/DC");
       item_title := Some (str "Thunderstruck") |};
    {| pl_is_selected := false; item_artist := Some (str "Queen");
       item_title := Some (str "Innuendo") |};
    {| pl_is_selected := true; item_artist := None;
       item_title := Some (str "Untitled") |} ].

Definition example_cache : gmap std_string std_string :=
  {[ str "/c/AC_DC-Thunderstruck" := str "thunder";
     str "/c/Queen-Innuendo" := str "innuendo" ]}.

(** The texts handed to [set_lyrics], in order. *)
Definition published_texts (evs : list event) : list std_string :=
  omap (λ e, match e with EvSetLyrics text => Some text | _ => None end) evs.

(** * Properties *)

(** ** The text normalizer *)

Lemma alphadigitize_loop (G : glib) (s res : ustring) :
  fold_left (fun res c => if alnum G c then res ++ [c] else res) s res
  = res ++ List.filter (alnum G) s.
Proof.
  revert res. induction s as [|c s IH]; intros res; simpl.
  - by rewrite app_nil_r.
  - rewrite IH. destruct (alnum G c); [|done].
    by rewrite <- app_assoc.
Qed.

Lemma alphadigitize_filter (G : glib) (s : ustring) :
  alphadigitize G s = List.filter (alnum G) s.
Proof. unfold alphadigitize. by rewrite alphadigitize_loop. Qed.

Lemma List_filter_sublist {A} (p : A -> bool) (l : list A) :
  List.filter p l `sublist_of` l.
Proof.
  induction l as [|x l IH]; simpl; [constructor|].
  destruct (p x); by constructor.
Qed.

Lemma List_filter_idem {A} (p : A -> bool) (l : list A) :
  List.filter p (List.filter p l) = List.filter p l.
Proof.
  induction l as [|x l IH]; simpl; [done|].
  destruct (p x) eqn:E; simpl; rewrite ?E, IH; done.
Qed.

(** C7: [alphadigitize] is idempotent, keeps exactly the characters that
    are alphabetic or decimal digits (for GLib's classification), in
    their order, and maps the empty string to the empty string.  It is a
    function of its argument alone. *)
Theorem alphadigitize_normalizes (G : glib) (s : ustring) :
  alphadigitize G (alphadigitize G s) = alphadigitize G s
  /\ alphadigitize G s = List.filter (alnum G) s
  /\ (forall c, c ∈ alphadigitize G s <-> c ∈ s /\ alnum G c = true)
  /\ alphadigitize G s `sublist_of` s
  /\ alphadigitize G [] = [].
Proof.
  rewrite !alphadigitize_filter. split_and!.
  - apply List_filter_idem.
  - done.
  - intros c. rewrite !list_elem_of_In. apply filter_In.
  - apply List_filter_sublist.
  - done.
Qed.

(** ** The cache key *)

Lemma replace_no_old (old new : ascii) (s : std_string) :
  old <> new -> old ∉ replace old new s.
Proof.
  intros Hne Hin. unfold replace in Hin.
  apply list_elem_of_fmap in Hin as (c & Hc & _).
  unfold ascii_eqb in Hc. destruct (Ascii.eqb_spec c old); congruence.
Qed.

Lemma replace_slash_equiv (a b : std_string) :
  slash_equiv a b -> replace "/" "_" a = replace "/" "_" b.
Proof.
  induction 1 as [|x y a b Hxy _ IH]; [done|].
  simpl. f_equal; [|exact IH].
  destruct Hxy as [->|[[-> ->]|[-> ->]]]; done.
Qed.

Lemma replace_eq_slash_equiv (a b : std_string) :
  replace "/" "_" a = replace "/" "_" b -> slash_equiv a b.
Proof.
  revert b. induction a as [|x a IH]; intros [|y b]; simpl; try done.
  - constructor.
  - intros [= Hxy Hab]. constructor; [|by apply IH].
    unfold slash_or_underscore, ascii_eqb in *.
    destruct (Ascii.eqb_spec x "/") as [->|Hx], (Ascii.eqb_spec y "/") as [->|Hy];
      subst; auto.
Qed.

(** The separator can be part of a field: fields of different lengths
    can give the same file name without being equal up to [/] and [_]. *)
Lemma cached_filename_hyphen (dir : std_string) :
  cached_filename dir (str "a-b") (str "c") = cached_filename dir (str "a") (str "b-c").
Proof. done. Qed.

(** C6: the cache file name is a function of artist and title:
    [lyrics_dir ++ artist ++ "-" ++ title] with every [/] of the two
    fields replaced by [_]; so two (artist, title) pairs that differ only
    by [/] against [_] at some positions get the same file name, and
    among pairs whose artists have the same length these are the only
    collisions. *)
Theorem cached_filename_collision (dir a1 t1 a2 t2 : std_string) :
  cached_filename dir a1 t1
    = dir ++ replace "/" "_" a1 ++ str "-" ++ replace "/" "_" t1
  /\ ~ In "/"%char (replace "/" "_" a1 ++ str "-" ++ replace "/" "_" t1)
  /\ (slash_equiv a1 a2 -> slash_equiv t1 t2 ->
      cached_filename dir a1 t1 = cached_filename dir a2 t2)
  /\ (length a1 = length a2 ->
      cached_filename dir a1 t1 = cached_filename dir a2 t2 ->
      slash_equiv a1 a2 /\ slash_equiv t1 t2).
Proof.
  split_and!.
  - done.
  - rewrite <- list_elem_of_In, !elem_of_app. intros [H|[H|H]].
    + by apply replace_no_old in H.
    + apply list_elem_of_singleton in H. discriminate.
    + by apply replace_no_old in H.
  - intros Ha Ht. unfold cached_filename.
    by rewrite (replace_slash_equiv _ _ Ha), (replace_slash_equiv _ _ Ht).
  - intros Hlen Heq. unfold cached_filename in Heq.
    apply app_inv_head in Heq.
    apply app_inj_1 in Heq as [Ha [= Ht]]; [|unfold replace; by rewrite !length_fmap].
    split; by apply replace_eq_slash_equiv.
Qed.

Lemma cached_filename_collision_witness :
  (str "AC/DC", str "Back_in/Black") <> (str "AC_DC", str "Back/in_Black")
  /\ cached_filename (str "/c/") (str "AC/DC") (str "Back_in/Black")
     = cached_filename (str "/c/") (str "AC_DC") (str "Back/in_Black").
Proof.
  split; [discriminate|].
  apply (proj1 (proj2 (proj2 (cached_filename_collision (str "/c/")
           (str "AC/DC") (str "Back_in/Black")
           (str "AC_DC") (str "Back/in_Black"))))).
  - unfold slash_equiv, slash_or_underscore, str; simpl.
    repeat (constructor; [auto|]). constructor.
  - unfold slash_equiv, slash_or_underscore, str; simpl.
    repeat (constructor; [auto|]). constructor.
Defined.

(** A hyphen inside a field moves the border between artist and title:
    these two pairs get the same file name and do not differ by [/]
    against [_] only. *)
Lemma cached_filename_hyphen_collision :
  cached_filename (str "/c/") (str "AC-DC") (str "Live")
  = cached_filename (str "/c/") (str "AC") (str "DC-Live")
  /\ ~ (slash_equiv (str "AC-DC") (str "AC") /\ slash_equiv (str "Live") (str "DC-Live")).
Proof.
  split; [done|]. intros [Ha _]. apply Forall2_length in Ha. discriminate.
Qed.


(** ** Computations *)

Ltac unfold_M :=
  unfold mbind, M_bind, mret, M_ret, bind, ret, throw, emit, try_catch,
    assert_fail, lookup_file, write_file in *.

Ltac norm_state := unfold log; simpl; rewrite <- ?app_assoc; simpl.

Lemma log_nil (s : state) : log s [] = s.
Proof. destruct s. unfold log. simpl. by rewrite app_nil_r. Qed.

Lemma log_log (s : state) (e1 e2 : list event) :
  log (log s e1) e2 = log s (e1 ++ e2).
Proof. unfold log. simpl. by rewrite app_assoc. Qed.

Lemma emit_log (e : event) (s : state) : emit e s = (Returned tt, log s [e]).
Proof. done. Qed.

(** ** The fetch *)

Lemma read_all_state (reads : list read_result) (res : std_string) (s : state) :
  (read_all reads res s).2 = s.
Proof.
  revert res. induction reads as [|r reads IH]; intros res; simpl; [done|].
  repeat case_match; auto.
Qed.

(** The only fault of the read loop is the size fault; a failed read
    trips the assertion. *)
Lemma read_all_outcome (reads : list read_result) (res : std_string) (s : state) :
  (exists body, (read_all reads res s).1 = Returned body)
  \/ (read_all reads res s).1 = Thrown (RuntimeError "file too large")
  \/ ((read_all reads res s).1 = AssertFailed /\ ReadError ∈ reads).
Proof.
  revert res. induction reads as [|r reads IH]; intros res; simpl.
  - left. by exists res.
  - destruct (0 <? nbytes r) eqn:Hpos.
    + destruct (_ >? MAX_FILE_SIZE); [right; by left|].
      destruct (IH (res ++ read_data r)) as [?|[?|[? ?]]]; [by left|right; by left|].
      right. right. split; [done|]. by constructor.
    + destruct (nbytes r =? 0) eqn:Hz; [left; by exists res|].
      right. right. split; [done|].
      destruct r; [|by constructor].
      apply Z.ltb_ge in Hpos. apply Z.eqb_neq in Hz. simpl in *. lia.
Qed.

(** A stream of non-empty reads whose total passes the cap ends in the
    size fault, whatever has been read so far within the cap. *)
Lemma read_all_oversize (chunks : list std_string) (res : std_string) (s : state) :
  Forall (λ c, c ≠ []) chunks ->
  Z.of_nat (length res) <= MAX_FILE_SIZE ->
  Z.of_nat (length res) + Z.of_nat (length (concat chunks)) > MAX_FILE_SIZE ->
  read_all (ReadBytes <$> chunks) res s = (Thrown (RuntimeError "file too large"), s).
Proof.
  intros Hne. revert res. induction Hne as [|c chunks Hc _ IH]; intros res Hres Htot.
  - simpl in *. lia.
  - simpl in *. rewrite length_app in Htot.
    assert (0 < Z.of_nat (length c)) by (destruct c; [done|simpl; lia]).
    destruct (0 <? Z.of_nat (length c)) eqn:Hpos; [|lia].
    destruct (Z.of_nat (length res) + Z.of_nat (length c) >? MAX_FILE_SIZE) eqn:Hbig;
      [done|].
    apply IH; rewrite length_app; lia.
Qed.

Lemma fetch_state (H : host) (uri : std_string) (s : state) :
  (fetch_file_as_chrome H uri s).2 = log s [EvHttpGet uri].
Proof.
  unfold fetch_file_as_chrome. unfold_M. simpl.
  destruct (stream _); [|done].
  destruct (negb _); [done|].
  pose proof (read_all_state l [] (log s [EvHttpGet uri])) as Hs.
  destruct (read_all _ _ _) as [[?| |] ?]; simpl in *; by subst.
Qed.

Lemma fetch_outcome (H : host) (uri : std_string) (s : state) :
  (exists doc, (fetch_file_as_chrome H uri s).1 = Returned doc)
  \/ (fetch_file_as_chrome H uri s).1 = Thrown (RuntimeError "file too large")
  \/ (fetch_file_as_chrome H uri s).1 = AssertFailed.
Proof.
  unfold fetch_file_as_chrome. unfold_M. simpl.
  destruct (stream _); [|left; by exists None].
  destruct (negb _); [left; by exists None|].
  destruct (read_all_outcome l [] (log s [EvHttpGet uri])) as [[b Hb]|[Hb|[Hb _]]];
    destruct (read_all _ _ _) as [[?| |] ?]; simpl in *; try discriminate;
    first [left; eexists; reflexivity
          | injection Hb as ->; right; left; reflexivity
          | right; right; reflexivity].
Qed.

Lemma fetch_oversize (H : host) (uri : std_string) (s : state) (chunks : list std_string) :
  stream (soup_session_send H uri) = Some (ReadBytes <$> chunks) ->
  (status_code (soup_session_send H uri) / 100 = 2)%N ->
  Forall (λ c, c ≠ []) chunks ->
  Z.of_nat (length (concat chunks)) > 2 ^ 20 ->
  fetch_file_as_chrome H uri s
  = (Thrown (RuntimeError "file too large"), log s [EvHttpGet uri]).
Proof.
  intros Hs Hc Hne Hbig. unfold fetch_file_as_chrome. unfold_M. simpl.
  rewrite Hs, Hc. simpl.
  rewrite read_all_oversize; [done..|].
  simpl. change MAX_FILE_SIZE with (2 ^ 20). lia.
Qed.

(** A read that fails after the answer has started is none of the cases
    the function tests for: the assertion after the loop body fails. *)
Lemma fetch_read_error (H : host) (uri : std_string) (s : state) :
  soup_session_send H uri = broken_response ->
  (fetch_file_as_chrome H uri s).1 = AssertFailed.
Proof.
  intros Hsend. unfold fetch_file_as_chrome. unfold_M. simpl. by rewrite Hsend.
Qed.



Lemma oversize_chunks_nonempty : Forall (λ c : std_string, c ≠ []) oversize_chunks.
Proof. apply Forall_replicate. discriminate. Qed.

Lemma oversize_chunks_length : Z.of_nat (length (concat oversize_chunks)) > 2 ^ 20.
Proof. vm_compute. reflexivity. Qed.



(** ** The script provider *)

Lemma take_eq_nil {A} (n : nat) (l : list A) :
  (0 < n)%nat -> take n l = [] -> l = [].
Proof. destruct n, l; simpl; intros; [lia|lia|done|done]. Qed.

(** The provider returns, calls nothing but its own collaborators and
    leaves the files alone; its first call reads the configuration. *)
Lemma script_returns (G : glib) (H : host) (s : state) :
  exists r evs,
    get_lyrics_from_script G H s
    = (Returned r, log s (EvConfGetStr "lyricbar.customcmd" :: evs))
    /\ forallb is_script_event evs = true.
Proof.
  unfold get_lyrics_from_script, conf_get_str, spawn_sync. unfold_M. simpl.
  match goal with |- context [bool_decide (?b = [])] => generalize b end.
  intros buf0. case_bool_decide; [by exists None, []|].
  destruct (tf_compile _ _) as [code|]; simpl;
    [|eexists None, [_]; by norm_state].
  destruct (tf_eval H code) as [len buf]. simpl.
  destruct (len <? 0); simpl; [eexists None, [_; _]; by norm_state|].
  destruct (spawn_command_line_sync _ _) as [|out status]; simpl;
    [eexists None, [_; _; _]; by norm_state|].
  repeat case_match; eexists _, [_; _; _]; by norm_state.
Qed.

(** C8: with an empty or unset command template the script provider
    returns the empty option after reading the configuration and nothing
    else (nothing is compiled, evaluated or spawned).  Otherwise it
    returns [out] exactly when the template compiles, evaluates to a
    non-negative length, the command is spawned, exits with status 0, and
    its output [out] is non-empty and validates; in every other case it
    returns the empty option. *)
Theorem get_lyrics_from_script_accepts (G : glib) (H : host) (s : state) :
  ((conf_value H "lyricbar.customcmd" = None
    \/ conf_value H "lyricbar.customcmd" = Some []) ->
   get_lyrics_from_script G H s
   = (Returned None, log s [EvConfGetStr "lyricbar.customcmd"]))
  /\ (forall out : std_string,
        (get_lyrics_from_script G H s).1 = Returned (Some out) <->
        exists v tf_code command_len buf,
          conf_value H "lyricbar.customcmd" = Some v /\ v <> []
          /\ tf_compile H (take 4095 v) = Some tf_code
          /\ tf_eval H tf_code = (command_len, buf)
          /\ 0 <= command_len
          /\ spawn_command_line_sync H (resize buf (Z.to_nat command_len))
             = Spawned out 0
          /\ out <> []
          /\ ustring_validate G out = true)
  /\ ((get_lyrics_from_script G H s).1 = Returned None
      \/ exists out, (get_lyrics_from_script G H s).1 = Returned (Some out)).
Proof.
  split_and!.
  - intros Hconf. unfold get_lyrics_from_script, conf_get_str. unfold_M. simpl.
    destruct Hconf as [-> | ->]; done.
  - intros out.
    unfold get_lyrics_from_script, conf_get_str, spawn_sync. unfold_M. simpl.
    destruct (conf_value H _) as [v|] eqn:Hv; simpl.
    2: { split; [done|]. intros (? & ? & ? & ? & ? & _). done. }
    case_bool_decide as Hbuf; simpl.
    { split; [done|]. intros (v' & ? & ? & ? & ? & Hne & _).
      assert (v' = v) as -> by congruence.
      apply take_eq_nil in Hbuf; [done|lia]. }
    destruct (tf_compile H (take 4095 v)) as [code|] eqn:Hcode; simpl.
    2: { split; [done|]. intros (? & ? & ? & ? & ? & ? & ? & _). congruence. }
    destruct (tf_eval H code) as [len buf] eqn:Heval; simpl.
    destruct (len <? 0) eqn:Hlen; simpl.
    { split; [done|]. intros (? & ? & len' & ? & ? & ? & ? & ? & ? & _).
      assert (len' = len) as -> by congruence. lia. }
    apply Z.ltb_ge in Hlen.
    destruct (spawn_command_line_sync _ _) as [|out' status] eqn:Hspawn; simpl.
    { split; [done|]. intros (? & ? & ? & ? & ? & ? & ? & ? & ? & ? & _).
      congruence. }
    case_bool_decide as Hout; simpl.
    { split; [done|]. intros (? & ? & ? & ? & ? & ? & ? & ? & ? & ? & ? & _).
      congruence. }
    destruct (status =? 0) eqn:Hst; simpl.
    2: { split; [done|]. intros (? & ? & ? & ? & ? & ? & ? & ? & ? & ? & ? & _).
         apply Z.eqb_neq in Hst. congruence. }
    apply Z.eqb_eq in Hst. subst status.
    destruct (ustring_validate G out') eqn:Hval; simpl.
    2: { split; [done|]. intros (? & ? & ? & ? & ? & ? & ? & ? & ? & ? & ? & ?).
         congruence. }
    split.
    + intros [= <-]. exists v, code, len, buf. split_and!; try done.
      by intros ->.
    + intros (? & ? & ? & ? & ? & ? & ? & ? & ? & ? & ? & ?). congruence.
  - destruct (script_returns G H s) as ([out|] & evs & -> & _); eauto.
Qed.

Lemma get_lyrics_from_script_accepts_witness :
  get_lyrics_from_script ascii_glib (scrape_host "A" "B" "u" "page") empty_state
  = (Returned None, log empty_state [EvConfGetStr "lyricbar.customcmd"])
  /\ (get_lyrics_from_script ascii_glib (script_host "La la" 0) empty_state).1
     = Returned (Some (str "La la"))
  /\ (get_lyrics_from_script ascii_glib (script_host "La la" 1) empty_state).1
     = Returned None.
Proof.
  split_and!.
  - apply (proj1 (get_lyrics_from_script_accepts ascii_glib
                    (scrape_host "A" "B" "u" "page") empty_state)).
    left. reflexivity.
  - apply (proj1 (proj2 (get_lyrics_from_script_accepts ascii_glib
                           (script_host "La la" 0) empty_state))).
    exists (str "getlyrics '%artist%' '%title%'"),
           (str "getlyrics '%artist%' '%title%'"),
           25, (str "getlyrics 'Artist' 'Song'" ++ replicate 4071 "000"%char).
    split_and!; try reflexivity; try discriminate.
  - destruct (proj2 (proj2 (get_lyrics_from_script_accepts ascii_glib
                              (script_host "La la" 1) empty_state)))
      as [Hnone | [out Hout]]; [exact Hnone|].
    vm_compute in Hout. discriminate.
Defined.

(** ** The orchestrator: the steps before the providers *)

Lemma find_meta_run (H : host) (key : string) (s : state) :
  find_meta H key s = (Returned (pl_find_meta H key), log s [EvFindMeta key]).
Proof. done. Qed.

Lemma metadata_none (H : host) (s : state) :
  no_embedded_lyrics H ->
  get_lyrics_from_metadata H s
  = (Returned None,
     log s [EvFindMeta "unsynced lyrics"; EvFindMeta "UNSYNCEDLYRICS";
            EvFindMeta "lyrics"]).
Proof.
  intros (H1 & H2 & H3).
  unfold get_lyrics_from_metadata, elvis, find_meta. unfold_M. simpl.
  rewrite H1, H2, H3. by norm_state.
Qed.

(** A cache read never throws: the [FileError] of a missing file is
    caught. *)
Lemma load_cached_run (H : host) (artist title : std_string) (s : state) :
  load_cached_lyrics H artist title s
  = (Returned (files s !! cached_filename (lyrics_dir H) artist title),
     log s [EvFileGetContents (cached_filename (lyrics_dir H) artist title)]).
Proof.
  unfold load_cached_lyrics, file_get_contents. unfold_M. simpl.
  by destruct (files s !! _).
Qed.

Lemma publish_run (H : host) (artist title lyrics : std_string) (s : state) :
  (set_lyrics lyrics;; save_cached_lyrics H artist title lyrics;; mret tt) s
  = (Returned tt, published H artist title lyrics s).
Proof.
  unfold set_lyrics, save_cached_lyrics, published. unfold_M. simpl.
  destruct (ofstream_opens H _); simpl; by norm_state.
Qed.

(** Publishing ends with the attempt to write the cache file, and the file
    holds the lyrics if it could be opened. *)
Lemma published_saved (H : host) (artist title lyrics : std_string) (s : state) :
  last (trace (published H artist title lyrics s))
  = Some (EvOfstream (cached_filename (lyrics_dir H) artist title))
  /\ (ofstream_opens H (cached_filename (lyrics_dir H) artist title) = true ->
      files (published H artist title lyrics s)
        !! cached_filename (lyrics_dir H) artist title = Some lyrics).
Proof.
  unfold published. simpl. split.
  - by rewrite (last_app_cons _ [_]).
  - intros ->. apply lookup_insert_eq.
Qed.

(** C9: when the track has no embedded lyrics and its artist or its title
    is absent, [update_lyrics] publishes "Lyrics not found" right after
    the metadata reads: the cache is neither read nor written and no
    provider is called. *)
Theorem update_lyrics_identity_absent (G : glib) (H : host) (s : state) :
  no_embedded_lyrics H ->
  pl_find_meta H "artist" = None \/ pl_find_meta H "title" = None ->
  update_lyrics G H s
  = (Returned tt,
     log s (metadata_reads ++ [EvSetLyrics (gettext H "Lyrics not found")])).
Proof.
  intros Hmeta Habsent. unfold update_lyrics.
  unfold mbind at 1, M_bind, bind. rewrite (metadata_none _ _ Hmeta).
  unfold mbind at 1, M_bind, bind. rewrite find_meta_run.
  unfold mbind at 1, M_bind, bind. rewrite find_meta_run.
  destruct (pl_find_meta H "artist"), (pl_find_meta H "title");
    destruct Habsent; try done; unfold set_lyrics; rewrite emit_log, !log_log; done.
Qed.

Lemma update_lyrics_identity_absent_witness :
  update_lyrics ascii_glib untagged_host empty_state
  = (Returned tt,
     log empty_state (metadata_reads ++ [EvSetLyrics (str "Lyrics not found")])).
Proof.
  apply (update_lyrics_identity_absent ascii_glib untagged_host empty_state).
  - repeat split.
  - left. reflexivity.
Defined.

(** ** The retry loop of the scrape provider *)

(** One turn of the [for (;;)] loop. *)
Lemma fetch_retry_step (G : glib) (H : host) (artist title : ustring) (s : state) :
  fetch_retry G H artist title s
  = match fetch_file_as_chrome H
            (azl_url (uri_escape_string G artist)
                     (uri_escape_string G (alphadigitize G title))) s with
    | (Returned (Some doc), s') => (Returned (Some doc), s')
    | (Returned None, s') =>
        if decide (drop_to_bracket title = []) then (Returned None, s')
        else fetch_retry G H artist (pop_back (drop_to_bracket title)) s'
    | (Thrown e, s') => (Thrown e, s')
    | (AssertFailed, s') => (AssertFailed, s')
    end.
Proof.
  funelim (fetch_retry G H artist title s);
    match goal with
    | Hf : fetch_file_as_chrome _ _ _ = _ |- _ => rewrite Hf
    end; try done;
    match goal with
    | Hd : decide _ = _ |- _ => by rewrite Hd
    end.
Qed.

(** One turn of the inner [while] loop. *)
Lemma drop_to_bracket_step (title : ustring) :
  drop_to_bracket title
  = match last title with
    | Some c => if is_bracket c then title else drop_to_bracket (pop_back title)
    | None => title
    end.
Proof.
  funelim (drop_to_bracket title);
    match goal with
    | Hl : last _ = _ |- _ => rewrite Hl
    end; try done;
    match goal with
    | Hb : is_bracket _ = _ |- _ => by rewrite Hb
    end.
Qed.

Lemma pop_back_snoc (t : ustring) (c : gunichar) : pop_back (t ++ [c]) = t.
Proof.
  unfold pop_back. rewrite length_app. simpl.
  replace (length t + 1 - 1)%nat with (length t) by lia.
  by rewrite take_app_length.
Qed.

Lemma pop_back_length (t : ustring) : length (pop_back t) = (length t - 1)%nat.
Proof. unfold pop_back. rewrite length_take. lia. Qed.

(** What the inner loop leaves: the title up to and including its last
    bracket, or nothing when it has no bracket. *)
Lemma drop_to_bracket_no_bracket (suffix : ustring) :
  forallb (λ c, negb (is_bracket c)) suffix = true ->
  drop_to_bracket suffix = [].
Proof.
  induction suffix as [|c suffix IH] using rev_ind; intros Hs.
  - by rewrite drop_to_bracket_step.
  - rewrite drop_to_bracket_step, last_snoc, pop_back_snoc.
    rewrite forallb_app in Hs. simpl in Hs.
    apply andb_prop in Hs as [Hs Hc]. rewrite andb_true_r in Hc.
    apply negb_true_iff in Hc. rewrite Hc. by apply IH.
Qed.

Lemma drop_to_bracket_bracket (prefix suffix : ustring) (b : gunichar) :
  is_bracket b = true ->
  forallb (λ c, negb (is_bracket c)) suffix = true ->
  drop_to_bracket (prefix ++ b :: suffix) = prefix ++ [b].
Proof.
  intros Hb. induction suffix as [|c suffix IH] using rev_ind; intros Hs.
  - by rewrite drop_to_bracket_step, last_snoc, Hb.
  - rewrite forallb_app in Hs. simpl in Hs.
    apply andb_prop in Hs as [Hs Hc]. rewrite andb_true_r in Hc.
    apply negb_true_iff in Hc.
    rewrite drop_to_bracket_step.
    replace (prefix ++ b :: suffix ++ [c]) with ((prefix ++ b :: suffix) ++ [c])
      by by rewrite <- app_assoc.
    rewrite last_snoc, pop_back_snoc, Hc. by apply IH.
Qed.

Lemma drop_to_bracket_length (title : ustring) :
  (length (drop_to_bracket title) <= length title)%nat.
Proof.
  induction title as [|c title IH] using rev_ind.
  - by rewrite drop_to_bracket_step.
  - rewrite drop_to_bracket_step, last_snoc, pop_back_snoc.
    destruct (is_bracket c); [done|]. rewrite length_app. simpl. lia.
Qed.

Lemma pop_drop_shorter (title : ustring) :
  drop_to_bracket title <> [] ->
  (length (pop_back (drop_to_bracket title)) < length title)%nat.
Proof.
  intros Hne. rewrite pop_back_length.
  pose proof (drop_to_bracket_length title).
  destruct (drop_to_bracket title); [done|]. simpl in *. lia.
Qed.

(** The loop ends after at most one fetch more than the title has
    characters; it calls nothing but the fetch, and ends with a document,
    with the empty option, or with the fault of its last fetch. *)
Lemma fetch_retry_run (G : glib) (H : host) (artist title : ustring) (s : state) :
  exists evs,
    (fetch_retry G H artist title s).2 = log s evs
    /\ forallb is_http_get evs = true
    /\ (1 <= length evs <= length title + 1)%nat
    /\ ((exists doc, (fetch_retry G H artist title s).1 = Returned doc)
        \/ (fetch_retry G H artist title s).1 = Thrown (RuntimeError "file too large")
        \/ (fetch_retry G H artist title s).1 = AssertFailed)
    /\ (fetch_faultless H ->
        exists doc, (fetch_retry G H artist title s).1 = Returned doc).
Proof.
  remember (length title) as n eqn:Hn. revert title s Hn.
  induction n as [n IH] using lt_wf_ind. intros title s ->.
  rewrite fetch_retry_step.
  set (uri := azl_url _ _).
  pose proof (fetch_state H uri s) as Hst.
  pose proof (fetch_outcome H uri s) as Hout.
  assert (fetch_faultless H -> exists doc, (fetch_file_as_chrome H uri s).1 = Returned doc)
    as Hok by (intros Hf; apply Hf).
  destruct (fetch_file_as_chrome H uri s) as [[[doc|]|e|] s']; simpl in *; subst s'.
  - exists [EvHttpGet uri]. split_and!; simpl; try done; try lia; eauto.
  - destruct (decide (drop_to_bracket title = [])) as [Hnil|Hne].
    + exists [EvHttpGet uri]. split_and!; simpl; try done; try lia; eauto.
    + destruct (IH _ (pop_drop_shorter _ Hne) _ (log s [EvHttpGet uri]) eq_refl)
        as (evs & -> & Hevs & Hlen & Hcls & Hfl).
      exists (EvHttpGet uri :: evs). rewrite log_log.
      pose proof (pop_drop_shorter _ Hne).
      split_and!; simpl; try done; lia.
  - exists [EvHttpGet uri]. split_and!; simpl; try done; lia.
  - exists [EvHttpGet uri]. split_and!; simpl; try done; lia.
Qed.

(** C4: the truncation after a failed fetch.  The inner loop leaves the
    title up to its last bracket, the bracket is dropped too and the loop
    goes on with what stands before it; a title without bracket ends the
    provider with the empty option.  For "Song (Remix)" on a site that
    only has the page of "Song", the provider asks for "songremix" twice
    (the first truncation only drops the closing parenthesis), then for
    "song", and returns the lyrics of that page. *)
Theorem title_truncation_retry (G : glib) (H : host) (artist title : ustring)
    (s s' : state) :
  (fetch_file_as_chrome H
     (azl_url (uri_escape_string G artist)
              (uri_escape_string G (alphadigitize G title))) s
   = (Returned None, s') ->
   (no_bracket title = true ->
    drop_to_bracket title = []
    /\ fetch_retry G H artist title s = (Returned None, s'))
   /\ (forall (prefix suffix : ustring) (b : gunichar),
         title = prefix ++ b :: suffix ->
         is_bracket b = true -> no_bracket suffix = true ->
         drop_to_bracket title = prefix ++ [b]
         /\ fetch_retry G H artist title s = fetch_retry G H artist prefix s'))
  /\ download_lyrics_from_azlyrics ascii_glib remix_host empty_state
     = (Returned (Some example_lyrics),
        log empty_state
          [EvFindMeta "artist"; EvFindMeta "title";
           EvHttpGet (str "https://www.azlyrics.com/lyrics/testartist/songremix.html");
           EvHttpGet (str "https://www.azlyrics.com/lyrics/testartist/songremix.html");
           EvHttpGet (str "https://www.azlyrics.com/lyrics/testartist/song.html")]).
Proof.
  split; [intros Hfetch; split|].
  - intros Hnb. pose proof (drop_to_bracket_no_bracket _ Hnb) as Hd.
    split; [done|]. rewrite fetch_retry_step, Hfetch.
    by destruct (decide _).
  - intros prefix suffix b -> Hb Hnb.
    pose proof (drop_to_bracket_bracket prefix _ _ Hb Hnb) as Hd.
    split; [done|]. rewrite fetch_retry_step, Hfetch, Hd.
    destruct (decide _) as [Hnil|_].
    + by destruct prefix.
    + by rewrite pop_back_snoc.
  - vm_compute. reflexivity.
Qed.

Lemma title_truncation_retry_witness :
  drop_to_bracket (uchar <$> str "song (remix")
  = (uchar <$> str "song ") ++ [uchar "("]
  /\ fetch_retry ascii_glib remix_host (uchar <$> str "testartist")
       (uchar <$> str "song (remix") empty_state
     = fetch_retry ascii_glib remix_host (uchar <$> str "testartist")
         (uchar <$> str "song ")
         (log empty_state
            [EvHttpGet (str "https://www.azlyrics.com/lyrics/testartist/songremix.html")]).
Proof.
  assert (fetch_file_as_chrome remix_host
            (azl_url (uri_escape_string ascii_glib (uchar <$> str "testartist"))
               (uri_escape_string ascii_glib
                  (alphadigitize ascii_glib (uchar <$> str "song (remix"))))
            empty_state
          = (Returned None,
             log empty_state
               [EvHttpGet (str "https://www.azlyrics.com/lyrics/testartist/songremix.html")]))
    as Hfetch by (vm_compute; reflexivity).
  apply (proj2 (proj1 (title_truncation_retry ascii_glib remix_host
           (uchar <$> str "testartist") (uchar <$> str "song (remix")
           empty_state _) Hfetch)
         (uchar <$> str "song ") (uchar <$> str "remix") (uchar "(")).
  - reflexivity.
  - reflexivity.
  - reflexivity.
Defined.

(** C10, as the code has it: the loop ends after at most one fetch more
    than the title has characters, with a document, the empty option or
    the fault of its last fetch; a failed turn that does not end the loop
    goes on with a strictly shorter title. *)
Theorem fetch_retry_bounded (G : glib) (H : host) (artist title : ustring) (s : state) :
  (exists evs,
     (fetch_retry G H artist title s).2 = log s evs
     /\ forallb is_http_get evs = true
     /\ (length evs <= length title + 1)%nat)
  /\ ((exists doc, (fetch_retry G H artist title s).1 = Returned doc)
      \/ (fetch_retry G H artist title s).1 = Thrown (RuntimeError "file too large")
      \/ (fetch_retry G H artist title s).1 = AssertFailed)
  /\ (drop_to_bracket title <> [] ->
      (length (pop_back (drop_to_bracket title)) < length title)%nat).
Proof.
  destruct (fetch_retry_run G H artist title s) as (evs & Hs & Hevs & Hlen & Hcls & _).
  split_and!.
  - exists evs. split_and!; [done..|lia].
  - done.
  - apply pop_drop_shorter.
Qed.

Lemma fetch_retry_bounded_witness :
  (length (pop_back (drop_to_bracket (uchar <$> str "song (remix)")))
   < length (uchar <$> str "song (remix)"))%nat.
Proof.
  apply (proj2 (proj2 (fetch_retry_bounded ascii_glib remix_host
           (uchar <$> str "testartist") (uchar <$> str "song (remix)") empty_state))).
  vm_compute. discriminate.
Defined.

(** For the one-character title "(" the loop fetches twice and fails
    twice: after the first failure the title is empty, and the loop still
    goes round once more before it gives up. *)
Lemma fetch_retry_two_failures_for_one_character :
  pl_find_meta paren_host "title" = Some (str "(")
  /\ length (ustring_lowercase ascii_glib (ustring_chars ascii_glib (str "("))) = 1%nat
  /\ download_lyrics_from_azlyrics ascii_glib paren_host empty_state
     = (Returned None,
        log empty_state
          [EvFindMeta "artist"; EvFindMeta "title";
           EvHttpGet (str "https://www.azlyrics.com/lyrics/artist/.html");
           EvHttpGet (str "https://www.azlyrics.com/lyrics/artist/.html")]).
Proof. split_and!; vm_compute; reflexivity. Qed.

(** ** The orchestrator: the provider chain *)

Lemma update_lyrics_searching (G : glib) (H : host) (s : state)
    (artist title : std_string) :
  no_embedded_lyrics H ->
  pl_find_meta H "artist" = Some artist ->
  pl_find_meta H "title" = Some title ->
  files s !! cached_filename (lyrics_dir H) artist title = None ->
  update_lyrics G H s
  = try_providers H (providers G H) artist title (searching H artist title s).
Proof.
  intros Hmeta Ha Ht Hmiss. unfold update_lyrics.
  unfold mbind at 1, M_bind, bind. rewrite (metadata_none _ _ Hmeta).
  unfold mbind at 1, M_bind, bind. rewrite find_meta_run.
  unfold mbind at 1, M_bind, bind. rewrite find_meta_run, Ha, Ht.
  unfold mbind at 1, M_bind, bind. rewrite load_cached_run. simpl.
  rewrite Hmiss.
  unfold mbind at 1, M_bind, bind. unfold set_lyrics at 1. rewrite emit_log.
  by rewrite !log_log.
Qed.

Lemma try_providers_run (G : glib) (H : host) (artist title : std_string)
    (s0 : state) :
  try_providers H (providers G H) artist title s0
  = match get_lyrics_from_script G H s0 with
    | (Returned (Some lyrics), s1) =>
        (Returned tt, published H artist title lyrics s1)
    | (Returned None, s1) =>
        match download_lyrics_from_azlyrics G H s1 with
        | (Returned (Some lyrics), s2) =>
            (Returned tt, published H artist title lyrics s2)
        | (Returned None, s2) =>
            (Returned tt, log s2 [EvSetLyrics (gettext H "Lyrics not found")])
        | (Thrown e, s2) => (Thrown e, s2)
        | (AssertFailed, s2) => (AssertFailed, s2)
        end
    | (Thrown e, s1) => (Thrown e, s1)
    | (AssertFailed, s1) => (AssertFailed, s1)
    end.
Proof.
  unfold providers. simpl.
  unfold mbind at 1, M_bind, bind.
  destruct (get_lyrics_from_script G H s0) as [[[lyrics|]|e|] s1]; try done.
  - apply publish_run.
  - unfold mbind at 1, M_bind, bind.
    destruct (download_lyrics_from_azlyrics G H s1) as [[[lyrics|]|e|] s2]; try done.
    apply publish_run.
Qed.



(** ** Exceptions *)

(** The scrape provider adds nothing to the faults of its fetches. *)
Lemma download_run (G : glib) (H : host) (s : state) :
  ((exists r, (download_lyrics_from_azlyrics G H s).1 = Returned r)
   \/ (download_lyrics_from_azlyrics G H s).1 = Thrown (RuntimeError "file too large")
   \/ (download_lyrics_from_azlyrics G H s).1 = AssertFailed)
  /\ (fetch_faultless H ->
      exists r, (download_lyrics_from_azlyrics G H s).1 = Returned r).
Proof.
  remember (download_lyrics_from_azlyrics G H s) as r eqn:Hr.
  unfold download_lyrics_from_azlyrics in Hr.
  unfold mbind at 1, M_bind, bind in Hr. rewrite find_meta_run in Hr.
  unfold mbind at 1, M_bind, bind in Hr. rewrite find_meta_run in Hr.
  destruct (pl_find_meta H "artist") as [artist|];
    [|subst r; split; [left|intros _]; by exists None].
  destruct (pl_find_meta H "title") as [title|];
    [|subst r; split; [left|intros _]; by exists None].
  unfold mbind at 1, M_bind, bind in Hr.
  match type of Hr with
  | context [fetch_retry G H ?a ?t ?s0] =>
      destruct (fetch_retry_run G H a t s0) as (evs & _ & _ & _ & Hcls & Hok);
      destruct (fetch_retry G H a t s0) as [[[doc|]|e|] s1]
  end; subst r; simpl in *.
  - split; [left|intros _]; by exists (extract_lyrics doc).
  - split; [left|intros _]; by exists None.
  - split; [|done]. destruct Hcls as [[? ?]|[?|?]]; try done. right. by left.
  - split; [|done]. right. by right.
Qed.

(** What escapes [update_lyrics]: nothing but a fault of a fetch of the
    scrape provider. *)
Lemma update_lyrics_outcome (G : glib) (H : host) (s : state) :
  ((update_lyrics G H s).1 = Returned tt
   \/ (update_lyrics G H s).1 = Thrown (RuntimeError "file too large")
   \/ (update_lyrics G H s).1 = AssertFailed)
  /\ (fetch_faultless H -> (update_lyrics G H s).1 = Returned tt).
Proof.
  remember (update_lyrics G H s) as r eqn:Hr.
  unfold update_lyrics, get_lyrics_from_metadata, elvis in Hr.
  unfold mbind, M_bind, bind, mret, M_ret, ret in Hr.
  repeat (rewrite find_meta_run in Hr; cbv beta iota in Hr).
  destruct (pl_find_meta H "unsynced lyrics"); [subst r; split; [by left|done]|].
  repeat (rewrite find_meta_run in Hr; cbv beta iota in Hr).
  destruct (pl_find_meta H "UNSYNCEDLYRICS"); [subst r; split; [by left|done]|].
  repeat (rewrite find_meta_run in Hr; cbv beta iota in Hr).
  destruct (pl_find_meta H "lyrics"); [subst r; split; [by left|done]|].
  repeat (rewrite find_meta_run in Hr; cbv beta iota in Hr).
  destruct (pl_find_meta H "artist") as [artist|];
    [|subst r; split; [by left|done]].
  destruct (pl_find_meta H "title") as [title|];
    [|subst r; split; [by left|done]].
  rewrite load_cached_run in Hr. cbv beta iota in Hr.
  destruct (files _ !! _); [subst r; split; [by left|done]|].
  unfold set_lyrics at 1 in Hr. rewrite emit_log in Hr. cbv beta iota in Hr.
  rewrite try_providers_run in Hr.
  match type of Hr with
  | context [get_lyrics_from_script G H ?s0] =>
      destruct (script_returns G H s0) as ([lyrics|] & evs & Hscript & _);
      rewrite Hscript in Hr
  end; [subst r; split; [by left|done]|].
  match type of Hr with
  | context [download_lyrics_from_azlyrics G H ?s1] =>
      destruct (download_run G H s1) as [Hcls Hok];
      destruct (download_lyrics_from_azlyrics G H s1) as [[[lyrics|]|e|] s2]
  end; subst r; simpl in *.
  - split; [by left|done].
  - split; [by left|done].
  - split.
    + destruct Hcls as [[? ?]|[[= ->]|?]]; try done. right. by left.
    + intros Hf. by destruct (Hok Hf).
  - split; [right; by right|].
    intros Hf. by destruct (Hok Hf).
Qed.

(** An oversized answer to the first request of the scrape provider is
    thrown through [download_lyrics_from_azlyrics] and [update_lyrics]:
    neither has a handler. *)
Lemma oversize_fault_escapes (G : glib) (H : host) (s : state)
    (artist title : std_string) (chunks : list std_string) :
  no_embedded_lyrics H ->
  pl_find_meta H "artist" = Some artist ->
  pl_find_meta H "title" = Some title ->
  files s !! cached_filename (lyrics_dir H) artist title = None ->
  conf_value H "lyricbar.customcmd" = None ->
  (forall uri,
     stream (soup_session_send H uri) = Some (ReadBytes <$> chunks)
     /\ (status_code (soup_session_send H uri) / 100 = 2)%N) ->
  Forall (λ c, c ≠ []) chunks ->
  Z.of_nat (length (concat chunks)) > 2 ^ 20 ->
  (update_lyrics G H s).1 = Thrown (RuntimeError "file too large").
Proof.
  intros Hmeta Ha Ht Hmiss Hconf Hsend Hne Hbig.
  rewrite (update_lyrics_searching G H s artist title Hmeta Ha Ht Hmiss).
  rewrite try_providers_run.
  assert (forall s0, get_lyrics_from_script G H s0
                     = (Returned None, log s0 [EvConfGetStr "lyricbar.customcmd"]))
    as ->.
  { intros s0. unfold get_lyrics_from_script, conf_get_str. unfold_M. simpl.
    by rewrite Hconf. }
  unfold download_lyrics_from_azlyrics.
  repeat (unfold mbind at 1, M_bind, bind; rewrite find_meta_run).
  rewrite Ha, Ht.
  unfold mbind at 1, M_bind, bind.
  rewrite fetch_retry_step.
  destruct (Hsend (azl_url
    (uri_escape_string G
       (alphadigitize G (ustring_lowercase G (ustring_chars G artist))))
    (uri_escape_string G
       (alphadigitize G (ustring_lowercase G (ustring_chars G title))))))
    as [Hstream Hstatus].
  by rewrite (fetch_oversize _ _ _ chunks Hstream Hstatus Hne Hbig).
Qed.

(** C2 as the code has it: [update_lyrics] returns normally whenever no
    fetch of the scrape provider faults; the one exception that can leave
    it is the "file too large" [runtime_error] of such a fetch, for which
    there is no handler (a failed read of the body trips the assertion of
    the fetch). *)
Theorem update_lyrics_escapes (G : glib) (H : host) (s : state) :
  (forall e, (update_lyrics G H s).1 = Thrown e -> e = RuntimeError "file too large")
  /\ (fetch_faultless H -> (update_lyrics G H s).1 = Returned tt)
  /\ (forall artist title chunks,
        no_embedded_lyrics H ->
        pl_find_meta H "artist" = Some artist ->
        pl_find_meta H "title" = Some title ->
        files s !! cached_filename (lyrics_dir H) artist title = None ->
        conf_value H "lyricbar.customcmd" = None ->
        (forall uri,
           stream (soup_session_send H uri) = Some (ReadBytes <$> chunks)
           /\ (status_code (soup_session_send H uri) / 100 = 2)%N) ->
        Forall (λ c, c ≠ []) chunks ->
        Z.of_nat (length (concat chunks)) > 2 ^ 20 ->
        (update_lyrics G H s).1 = Thrown (RuntimeError "file too large")).
Proof.
  destruct (update_lyrics_outcome G H s) as [Hcls Hok]. split_and!.
  - intros e He. rewrite He in Hcls. destruct Hcls as [?|[?|?]]; congruence.
  - done.
  - intros artist title chunks. apply oversize_fault_escapes.
Qed.

(** An exception leaves [update_lyrics]: the site answers the request
    for the lyrics page with 257 reads of 4096 bytes. *)
Lemma update_lyrics_lets_exception_escape :
  (update_lyrics ascii_glib oversize_host empty_state).1
  = Thrown (RuntimeError "file too large").
Proof.
  apply (oversize_fault_escapes ascii_glib oversize_host empty_state
           (str "Artist") (str "Song") oversize_chunks).
  - repeat split.
  - reflexivity.
  - reflexivity.
  - reflexivity.
  - reflexivity.
  - intros uri. split; reflexivity.
  - apply oversize_chunks_nonempty.
  - apply oversize_chunks_length.
Qed.

Lemma update_lyrics_escapes_witness :
  (update_lyrics ascii_glib remix_host empty_state).1 = Returned tt.
Proof.
  apply (proj1 (proj2 (update_lyrics_escapes ascii_glib remix_host empty_state))).
  intros uri s. unfold fetch_file_as_chrome, remix_host, scrape_host. unfold_M.
  simpl. case_bool_decide; simpl; eexists; reflexivity.
Defined.

(** ** Regular expressions *)

(** Every way to match leaves a suffix of the subject. *)
Lemma star_rests_suffix (set : ascii -> bool) (greedy : bool) (s rest : std_string) :
  rest ∈ star_rests set greedy s -> exists w, s = w ++ rest.
Proof.
  revert rest. induction s as [|c s IH]; intros rest; simpl.
  - intros ->%list_elem_of_singleton. by exists [].
  - destruct (set c); [|intros ->%list_elem_of_singleton; by exists []].
    destruct greedy.
    + intros [Hin| ->%list_elem_of_singleton]%elem_of_app; [|by exists []].
      destruct (IH _ Hin) as [w ->]. by exists (c :: w).
    + intros [->|Hin]%elem_of_cons; [by exists []|].
      destruct (IH _ Hin) as [w ->]. by exists (c :: w).
Qed.

Lemma step_if_suffix (p : ascii -> bool) (s rest : std_string) :
  rest ∈ step_if p s -> exists c, s = c :: rest.
Proof.
  destruct s as [|c s]; simpl; [by intros ?%elem_of_nil|].
  destruct (p c); [|by intros ?%elem_of_nil].
  intros ->%list_elem_of_singleton. by exists c.
Qed.

Lemma matches_suffix (r : regex) (p q : position) :
  q ∈ matches r p -> exists w, p.1 = w ++ q.1.
Proof.
  revert p q. induction r as [c| |set greedy|r IH|r1 IH1 r2 IH2|r IH];
    intros p q; simpl.
  - intros (s' & -> & [c' ->]%step_if_suffix)%list_elem_of_fmap. by exists [c'].
  - intros (s' & -> & [c' ->]%step_if_suffix)%list_elem_of_fmap. by exists [c'].
  - intros (s' & -> & Hin)%list_elem_of_fmap. by apply star_rests_suffix in Hin.
  - intros [Hin| ->%list_elem_of_singleton]%elem_of_app; [by apply IH|by exists []].
  - intros (m & Hq & Hm)%list_elem_of_bind.
    destruct (IH1 _ _ Hm) as [w1 ->]. destruct (IH2 _ _ Hq) as [w2 ->].
    exists (w1 ++ w2). by rewrite app_assoc.
  - intros (q' & -> & Hin)%list_elem_of_fmap.
    destruct (IH _ _ Hin) as [w Hw]. by exists w.
Qed.

Lemma match_here_split (r : regex) (s whole sub1 rest : std_string) :
  match_here r s = Some (whole, sub1, rest) -> s = whole ++ rest.
Proof.
  unfold match_here. destruct (matches r (s, None)) as [|[rest' cap] l] eqn:Hm;
    [done|].
  intros [= <- <- <-].
  destruct (matches_suffix r (s, None) (rest', cap)) as [w Hw].
  { rewrite Hm. by left. }
  simpl in Hw. subst s. rewrite length_app.
  replace (length w + length rest' - length rest')%nat with (length w) by lia.
  by rewrite take_app_length.
Qed.

(** [regex_search] splits the subject around the match. *)
Lemma regex_search_from_split (r : regex) (before s : std_string) (m : smatch) :
  regex_search_from r before s = Some m ->
  exists pre,
    m_prefix m = rev before ++ pre
    /\ s = pre ++ m_whole m ++ m_suffix m.
Proof.
  revert before. induction s as [|c s IH]; intros before; simpl.
  - destruct (match_here r []) as [[[whole sub1] rest]|] eqn:Hm; [|done].
    intros [= <-]. simpl. exists []. rewrite app_nil_r.
    split; [done|]. by apply match_here_split in Hm.
  - destruct (match_here r (c :: s)) as [[[whole sub1] rest]|] eqn:Hm.
    + intros [= <-]. simpl. exists []. rewrite app_nil_r.
      split; [done|]. by apply match_here_split in Hm.
    + intros (pre & Hp & Hs)%IH. exists (c :: pre). simpl in *.
      rewrite Hp, <- app_assoc. split; [done|]. by rewrite Hs.
Qed.

Lemma regex_search_split (r : regex) (s : std_string) (m : smatch) :
  regex_search r s = Some m -> s = m_prefix m ++ m_whole m ++ m_suffix m.
Proof.
  intros (pre & Hp & Hs)%regex_search_from_split. simpl in Hp. by rewrite Hp.
Qed.

(** *** The tag pattern *)

Lemma gt_in_app (a b : std_string) : gt_in (a ++ b) = gt_in a || gt_in b.
Proof. apply existsb_app. Qed.

Lemma lt_in_app (a b : std_string) : lt_in (a ++ b) = lt_in a || lt_in b.
Proof. apply existsb_app. Qed.

Lemma has_tag_app (a b : std_string) :
  has_tag (a ++ b) = has_tag a || (lt_in a && gt_in b) || has_tag b.
Proof.
  induction a as [|c a IH]; simpl; [done|].
  rewrite IH, gt_in_app.
  destruct (ascii_eqb c "<"), (gt_in a), (gt_in b), (has_tag a), (lt_in a),
    (has_tag b); done.
Qed.

Lemma after_gt_gt_in (s : std_string) : is_Some (after_gt s) <-> gt_in s = true.
Proof.
  induction s as [|c s IH]; simpl.
  - split; [by intros [? ?]|done].
  - destruct (ascii_eqb c ">"); simpl; [|done]. split; [done|by eexists].
Qed.

Lemma after_gt_split (s rest : std_string) :
  after_gt s = Some rest -> exists w, s = w ++ ">"%char :: rest.
Proof.
  revert rest. induction s as [|c s IH]; intros rest; simpl; [done|].
  unfold ascii_eqb. destruct (Ascii.eqb_spec c ">") as [->|_].
  - intros [= ->]. by exists [].
  - intros [w ->]%IH. by exists (c :: w).
Qed.

(** After [<], the greedy [[^>]*] runs to the first [>] or to the end;
    no shorter run is followed by [>]. *)
Lemma step_if_chr (c x : ascii) (s : std_string) :
  step_if (ascii_eqb c) (x :: s) = if ascii_eqb x c then [s] else [].
Proof. simpl. unfold ascii_eqb. by rewrite Ascii.eqb_sym. Qed.

Lemma matches_tag_body (s : std_string) (cap : option std_string) :
  matches (Cat (Star not_gt true) (Chr ">")) (s, cap)
  = match after_gt s with
    | Some rest => [(rest, cap)]
    | None => []
    end.
Proof.
  change (((λ s', (s', cap)) <$> star_rests not_gt true s)
          ≫= (λ p : position, (λ s', (s', p.2)) <$> step_if (ascii_eqb ">") p.1)
          = match after_gt s with
            | Some rest => [(rest, cap)]
            | None => []
            end).
  induction s as [|c s IH]; [done|].
  cbn [star_rests after_gt]. unfold not_gt at 1.
  destruct (ascii_eqb c ">") eqn:Hc; cbn [negb].
  - rewrite list_fmap_singleton, bind_singleton. cbn [fst snd].
    by rewrite step_if_chr, Hc.
  - rewrite fmap_app, bind_app, IH, list_fmap_singleton, bind_singleton.
    cbn [fst snd]. rewrite step_if_chr, Hc. by rewrite app_nil_r.
Qed.

Lemma matches_tag (s : std_string) (cap : option std_string) :
  matches tag_expr (s, cap)
  = match s with
    | c :: s' =>
        if ascii_eqb c "<" then
          match after_gt s' with
          | Some rest => [(rest, cap)]
          | None => []
          end
        else []
    | [] => []
    end.
Proof.
  unfold tag_expr.
  change (matches (Cat (Chr "<") ?r) (s, cap))
    with (matches (Chr "<") (s, cap) ≫= matches r).
  destruct s as [|c s]; [done|]. cbn [matches fst snd].
  rewrite step_if_chr.
  destruct (ascii_eqb c "<"); [|done].
  rewrite list_fmap_singleton, bind_singleton. apply matches_tag_body.
Qed.

Lemma match_here_tag_none (s : std_string) :
  match_here tag_expr s = None <->
  match s with
  | c :: s' => ascii_eqb c "<" && gt_in s' = false
  | [] => True
  end.
Proof.
  unfold match_here. rewrite matches_tag.
  destruct s as [|c s]; [done|].
  destruct (ascii_eqb c "<"); simpl; [|done].
  pose proof (after_gt_gt_in s) as Hgt.
  destruct (after_gt s), (gt_in s); try done.
  - split; [done|]. intros _.
    assert (false = true) by (apply Hgt; by eexists). done.
  - split; [|done]. intros _.
    assert (is_Some (@None std_string)) as [? ?] by by apply Hgt. done.
Qed.

Lemma match_here_tag_some (s whole sub1 rest : std_string) :
  match_here tag_expr s = Some (whole, sub1, rest) ->
  whole <> [] /\ gt_in whole = true.
Proof.
  intros Hm. pose proof (match_here_split _ _ _ _ _ Hm) as ->.
  unfold match_here in Hm. rewrite matches_tag in Hm.
  destruct (whole ++ rest) as [|c s] eqn:Hs; [done|].
  destruct (ascii_eqb c "<"); [|done].
  destruct (after_gt s) as [rest'|] eqn:Hgt; [|done].
  injection Hm as Hw _ Hr. subst rest'.
  apply after_gt_split in Hgt as [w ->].
  assert (whole = c :: w ++ [">"%char]) as ->.
  { apply (app_inv_tail rest). rewrite Hs. simpl. by rewrite <- app_assoc. }
  split; [done|]. simpl. rewrite gt_in_app. simpl.
  by rewrite !orb_true_r.
Qed.

(** No tag is found exactly in the texts without tag. *)
Lemma regex_search_tag_none (before s : std_string) :
  regex_search_from tag_expr before s = None <-> has_tag s = false.
Proof.
  revert before. induction s as [|c s IH]; intros before; simpl.
  - by destruct (match_here tag_expr []).
  - pose proof (match_here_tag_none (c :: s)) as Hn. simpl in Hn.
    destruct (match_here tag_expr (c :: s)) as [[[? ?] ?]|].
    + split; [done|]. intros [Hc _]%orb_false_elim.
      by apply Hn in Hc.
    + rewrite IH. by rewrite (proj1 Hn eq_refl), orb_false_l.
Qed.

(** Before the first tag there is no [<]. *)
Lemma regex_search_tag_prefix (before s : std_string) (m : smatch) :
  regex_search_from tag_expr before s = Some m ->
  exists pre,
    m_prefix m = rev before ++ pre
    /\ s = pre ++ m_whole m ++ m_suffix m
    /\ lt_in pre = false /\ m_whole m <> [] /\ gt_in (m_whole m) = true.
Proof.
  revert before. induction s as [|c s IH]; intros before; simpl.
  - destruct (match_here tag_expr []) as [[[whole sub1] rest]|] eqn:Hm; [|done].
    unfold match_here in Hm. by rewrite matches_tag in Hm.
  - destruct (match_here tag_expr (c :: s)) as [[[whole sub1] rest]|] eqn:Hm.
    + intros [= <-]. simpl. exists []. rewrite app_nil_r. split_and!.
      * done.
      * by apply match_here_split in Hm.
      * done.
      * by apply match_here_tag_some in Hm as [? ?].
      * by apply match_here_tag_some in Hm as [? ?].
    + intros (pre & Hp & Hs & Hpre & Hw & Hgt)%IH.
      exists (c :: pre). split_and!; try done.
      * rewrite Hp. simpl. by rewrite <- app_assoc.
      * simpl. by rewrite <- Hs.
      * simpl. rewrite Hpre, orb_false_r.
        apply match_here_tag_none in Hm.
        rewrite Hs, !gt_in_app, Hgt in Hm. simpl in Hm.
        by rewrite orb_true_r, andb_true_r in Hm.
Qed.

Lemma no_lt_no_tag (s : std_string) : lt_in s = false -> has_tag s = false.
Proof.
  induction s as [|c s IH]; simpl; [done|].
  intros [-> Hs]%orb_false_elim. by rewrite IH.
Qed.

(** After all tags have been replaced by nothing, no tag is left. *)
Lemma regex_replace_tag_no_tag (n : nat) (s : std_string) :
  (length s < n)%nat -> has_tag (regex_replace_n n tag_expr [] s) = false.
Proof.
  revert s. induction n as [|n IH]; intros s Hlen; [lia|]. simpl.
  destruct (regex_search tag_expr s) as [m|] eqn:Hm.
  - destruct (regex_search_tag_prefix _ _ _ Hm) as (pre & Hp & Hs & Hpre & Hw & _).
    simpl in Hp. rewrite Hp.
    destruct (m_whole m) as [|w0 w] eqn:Hwhole; [done|].
    rewrite has_tag_app, Hpre, (no_lt_no_tag _ Hpre). simpl.
    apply IH. rewrite Hs, !length_app in Hlen. simpl in Hlen. lia.
  - by apply regex_search_tag_none in Hm.
Qed.

Ltac norm_tags Hs H1 H2 H3 :=
  rewrite ?has_tag_app, ?gt_in_app, ?lt_in_app, ?H1, ?H2, ?H3 in Hs;
  rewrite ?has_tag_app, ?gt_in_app, ?lt_in_app, ?H1, ?H2, ?H3.

(** Replacing matches by a text without [<] and [>] makes no tag. *)
Lemma regex_replace_keeps_no_tag (n : nat) (r : regex) (fmt s : std_string) :
  lt_in fmt = false -> gt_in fmt = false ->
  has_tag s = false ->
  has_tag (regex_replace_n n r fmt s) = false
  /\ (gt_in (regex_replace_n n r fmt s) = true -> gt_in s = true).
Proof.
  intros Hlt Hgt. revert s. induction n as [|n IH]; intros s Hs; [done|]. simpl.
  destruct (regex_search r s) as [m|] eqn:Hm; [|done].
  apply regex_search_split in Hm. rewrite Hm in Hs |- *.
  pose proof (no_lt_no_tag _ Hlt) as Hfmt.
  destruct (m_whole m) as [|w0 w]; [destruct (m_suffix m) as [|c s']|].
  - norm_tags Hs Hlt Hgt Hfmt. simpl in *.
    destruct (has_tag (m_prefix m)), (lt_in (m_prefix m)), (gt_in (m_prefix m));
      done.
  - norm_tags Hs Hlt Hgt Hfmt. simpl in *. norm_tags Hs Hlt Hgt Hfmt. simpl in *.
    destruct (IH s') as [IH1 IH2].
    { destruct (has_tag s'); [|done].
      by rewrite !orb_true_r in Hs. }
    rewrite IH1.
    destruct (has_tag (m_prefix m)), (lt_in (m_prefix m)), (gt_in (m_prefix m)),
      (ascii_eqb c "<"), (ascii_eqb c ">"), (gt_in s'), (has_tag s'),
      (gt_in (regex_replace_n n r fmt s')); simpl in *; try done;
      by (discriminate (IH2 eq_refl)).
  - norm_tags Hs Hlt Hgt Hfmt.
    destruct (IH (m_suffix m)) as [IH1 IH2].
    { destruct (has_tag (m_suffix m)); [|done].
      by rewrite !orb_true_r in Hs. }
    rewrite IH1.
    destruct (has_tag (m_prefix m)), (lt_in (m_prefix m)), (gt_in (m_prefix m)),
      (has_tag (w0 :: w)), (lt_in (w0 :: w)), (gt_in (w0 :: w)),
      (gt_in (m_suffix m)), (has_tag (m_suffix m)),
      (gt_in (regex_replace_n n r fmt (m_suffix m))); simpl in *; try done;
      by (discriminate (IH2 eq_refl)).
Qed.

(** *** The line-break pattern *)

Lemma matches_last_chr (r : regex) (c : ascii) (p q : position) :
  last_chr r = Some c -> q ∈ matches r p -> exists w, p.1 = w ++ c :: q.1.
Proof.
  revert p q. induction r as [c'| | | |r1 _ r2 IH2|]; intros p q; simpl; try done.
  - intros [= ->].
    intros (s' & -> & Hin)%list_elem_of_fmap.
    destruct p as [[|x s] cap]; simpl in *; [by apply elem_of_nil in Hin|].
    unfold ascii_eqb in Hin. destruct (Ascii.eqb_spec c x) as [->|_];
      [|by apply elem_of_nil in Hin].
    apply list_elem_of_singleton in Hin as ->. by exists [].
  - intros Hc (m & Hq & Hm)%list_elem_of_bind.
    destruct (matches_suffix _ _ _ Hm) as [w1 ->].
    destruct (IH2 _ _ Hc Hq) as [w2 ->].
    exists (w1 ++ w2). by rewrite <- app_assoc.
Qed.

Lemma match_here_br_tag (s whole sub1 rest : std_string) :
  match_here br_expr s = Some (whole, sub1, rest) -> has_tag s = true.
Proof.
  unfold match_here.
  destruct (matches br_expr (s, None)) as [|q l] eqn:Hm; [done|]. intros _.
  assert (q ∈ matches br_expr (s, None)) as Hq by (rewrite Hm; by left).
  destruct (matches_last_chr br_expr ">" _ _ eq_refl Hq) as [w Hw].
  simpl in Hw. clear Hm.
  change br_expr with (Cat (Chr "<") (lit_then (str "br")
    (ws_then (Cat (Opt (Chr "/")) (ws_then (Chr ">")))))) in Hq.
  cbn [matches] in Hq. apply list_elem_of_bind in Hq as (m & _ & Hm).
  apply list_elem_of_fmap in Hm as (s' & _ & Hs').
  destruct s as [|x s]; [by apply elem_of_nil in Hs'|].
  cbn [fst] in Hs'. rewrite step_if_chr in Hs'.
  unfold ascii_eqb in Hs'. destruct (Ascii.eqb_spec x "<") as [->|_];
    [|by apply elem_of_nil in Hs'].
  destruct w as [|y w]; [done|]. injection Hw as <- ->.
  simpl. rewrite gt_in_app. simpl. by rewrite orb_true_r.
Qed.

Lemma regex_search_br_tag (before s : std_string) (m : smatch) :
  regex_search_from br_expr before s = Some m -> has_tag s = true.
Proof.
  revert before. induction s as [|c s IH]; intros before; simpl.
  - destruct (match_here br_expr []) as [[[whole sub1] rest]|] eqn:Hm; [|done].
    by apply match_here_br_tag in Hm.
  - destruct (match_here br_expr (c :: s)) as [[[whole sub1] rest]|] eqn:Hm.
    + intros _. by apply match_here_br_tag in Hm.
    + intros Hs%IH. by rewrite Hs, orb_true_r.
Qed.

Lemma no_tag_no_br (s : std_string) :
  has_tag s = false -> regex_search br_expr s = None.
Proof.
  intros Hs. destruct (regex_search br_expr s) as [m|] eqn:Hm; [|done].
  apply regex_search_br_tag in Hm. congruence.
Qed.

(** ** Extraction and cleaning *)

Lemma regex_replace_tag_clean (s : std_string) :
  has_tag (regex_replace s tag_expr []) = false.
Proof. apply regex_replace_tag_no_tag. lia. Qed.

Lemma regex_replace_quot_clean (s : std_string) :
  has_tag s = false -> has_tag (regex_replace s quot_expr [dquote]) = false.
Proof. intros Hs. by apply regex_replace_keeps_no_tag. Qed.

(** C5 as the code has it: the lyrics are sub-match 1 of [lyrics_expr]
    with the line-break tags, then all tags, then [&quot;] replaced; an
    empty result gives the empty option; otherwise a line feed is added
    unless the text already ends with one.  The returned text ends with a
    line feed and has no tag left.  The white space before [</div>] is
    not part of sub-match 1: the page of the example gives the two lines
    without a space before the final line feed. *)
Theorem extract_lyrics_cleans (doc : std_string) :
  (regex_search lyrics_expr doc = None -> extract_lyrics doc = None)
  /\ (forall m, regex_search lyrics_expr doc = Some m ->
      let cleaned :=
        regex_replace
          (regex_replace (regex_replace (m_sub1 m) br_expr []) tag_expr [])
          quot_expr [dquote] in
      extract_lyrics doc
      = if bool_decide (cleaned = []) then None
        else if bool_decide (last cleaned = Some newline) then Some cleaned
        else Some (cleaned ++ [newline]))
  /\ (forall lyrics, extract_lyrics doc = Some lyrics ->
      lyrics <> [] /\ last lyrics = Some newline
      /\ regex_search br_expr lyrics = None
      /\ regex_search tag_expr lyrics = None)
  /\ extract_lyrics (str example_page) = Some example_lyrics.
Proof.
  split_and!.
  - intros Hm. unfold extract_lyrics. by rewrite Hm.
  - intros m Hm. unfold extract_lyrics. rewrite Hm. simpl.
    by repeat case_bool_decide.
  - intros lyrics. unfold extract_lyrics.
    destruct (regex_search lyrics_expr doc) as [m|]; [|done].
    set (cleaned := regex_replace _ quot_expr _).
    assert (has_tag cleaned = false) as Hclean
      by apply regex_replace_quot_clean, regex_replace_tag_clean.
    case_bool_decide as Hnil; [done|].
    case_bool_decide as Hlast; simpl; intros [= <-].
    + split_and!; [done..| |].
      * by apply no_tag_no_br.
      * by apply regex_search_tag_none.
    + assert (has_tag (cleaned ++ [newline]) = false) as Hnl.
      { rewrite has_tag_app, Hclean. simpl. by rewrite andb_false_r. }
      split_and!.
      * by destruct cleaned.
      * by rewrite last_snoc.
      * by apply no_tag_no_br.
      * by apply regex_search_tag_none.
  - vm_compute. reflexivity.
Qed.

Lemma extract_lyrics_cleans_witness :
  example_lyrics <> []
  /\ last example_lyrics = Some newline
  /\ regex_search br_expr example_lyrics = None
  /\ regex_search tag_expr example_lyrics = None.
Proof.
  apply (proj1 (proj2 (proj2 (extract_lyrics_cleans (str example_page))))
           example_lyrics).
  vm_compute. reflexivity.
Defined.

(** The fragment of the scenario does not clean to the expected text:
    as written, its comment does not start with the marker and nothing is
    extracted; with the marker at the start of the comment, the result has
    no space before the line feed.  And a text can come out with two line
    feeds at its end. *)
Lemma extract_lyrics_not_as_expected :
  extract_lyrics (str scenario_fragment) = None
  /\ extract_lyrics (str scenario_fragment_elided) = Some example_lyrics
  /\ example_lyrics <> scenario_lyrics
  /\ extract_lyrics blank_line_fragment
     = Some (str "Line one" ++ [newline; newline]).
Proof. split_and!; [vm_compute; reflexivity..|discriminate|vm_compute; reflexivity]. Qed.

(** * Further properties *)

(** ** The cache store *)

Lemma slash_equiv_refl (a : std_string) : slash_equiv a a.
Proof. induction a; constructor; [by left|done]. Qed.

Lemma save_cached_run (H : host) (artist title lyrics : std_string) (s : state) :
  save_cached_lyrics H artist title lyrics s
  = let filename := cached_filename (lyrics_dir H) artist title in
    (Returned (ofstream_opens H filename),
     {| files := if ofstream_opens H filename
                 then <[filename := lyrics]> (files s) else files s;
        trace := trace s ++ [EvOfstream filename] |}).
Proof.
  unfold save_cached_lyrics. unfold_M. simpl.
  by destruct (ofstream_opens H _).
Qed.

(** X1: what is saved for a track is what is loaded for it afterwards,
    also under a spelling of artist and title that differs by [/] against
    [_]: both name the same file. *)
Theorem save_then_load (H : host) (artist title artist' title' lyrics : std_string)
    (s : state) :
  ofstream_opens H (cached_filename (lyrics_dir H) artist title) = true ->
  slash_equiv artist artist' -> slash_equiv title title' ->
  (save_cached_lyrics H artist title lyrics s).1 = Returned true
  /\ (load_cached_lyrics H artist' title'
        (save_cached_lyrics H artist title lyrics s).2).1
     = Returned (Some lyrics).
Proof.
  intros Hopen Ha Ht. rewrite save_cached_run. cbv zeta. rewrite Hopen.
  split; [done|]. rewrite load_cached_run. simpl.
  unfold cached_filename.
  rewrite <- (replace_slash_equiv _ _ Ha), <- (replace_slash_equiv _ _ Ht).
  by rewrite lookup_insert_eq.
Qed.

Lemma save_then_load_witness :
  (load_cached_lyrics remix_host (str "AC_DC") (str "Back in Black")
     (save_cached_lyrics remix_host (str "AC/DC") (str "Back in Black")
        (str "lyrics") empty_state).2).1
  = Returned (Some (str "lyrics")).
Proof.
  apply (save_then_load remix_host (str "AC/DC") (str "Back in Black")
           (str "AC_DC") (str "Back in Black") (str "lyrics") empty_state).
  - reflexivity.
  - unfold slash_equiv, slash_or_underscore, str; simpl.
    repeat (constructor; [auto|]). constructor.
  - apply slash_equiv_refl.
Defined.

(** X2: a save whose file cannot be opened returns [false] and leaves
    every file as it was; a save that succeeds changes what is loaded
    for no track with another file name. *)
Theorem save_cached_lyrics_frame (H : host)
    (artist title lyrics artist' title' : std_string) (s : state) :
  (ofstream_opens H (cached_filename (lyrics_dir H) artist title) = false ->
   (save_cached_lyrics H artist title lyrics s).1 = Returned false
   /\ files (save_cached_lyrics H artist title lyrics s).2 = files s)
  /\ (cached_filename (lyrics_dir H) artist' title'
      <> cached_filename (lyrics_dir H) artist title ->
      (load_cached_lyrics H artist' title'
         (save_cached_lyrics H artist title lyrics s).2).1
      = (load_cached_lyrics H artist' title' s).1).
Proof.
  rewrite save_cached_run. cbv zeta. split.
  - by intros ->.
  - intros Hne. rewrite !load_cached_run. simpl.
    destruct (ofstream_opens H _); [|done].
    by rewrite lookup_insert_ne.
Qed.

Lemma save_cached_lyrics_frame_witness :
  (load_cached_lyrics remix_host (str "A") (str "B")
     (save_cached_lyrics remix_host (str "A") (str "C") (str "x") empty_state).2).1
  = (load_cached_lyrics remix_host (str "A") (str "B") empty_state).1.
Proof.
  apply (proj2 (save_cached_lyrics_frame remix_host (str "A") (str "C") (str "x")
                  (str "A") (str "B") empty_state)).
  vm_compute. discriminate.
Defined.

(** ** The orchestrator: lyrics at hand *)

Lemma metadata_run (H : host) (s : state) :
  exists reads,
    get_lyrics_from_metadata H s = (Returned (embedded_lyrics H), log s reads)
    /\ forallb is_lyrics_read reads = true.
Proof.
  unfold get_lyrics_from_metadata, elvis, find_meta, embedded_lyrics. unfold_M.
  simpl.
  destruct (pl_find_meta H "unsynced lyrics"); [by eexists [_]|].
  destruct (pl_find_meta H "UNSYNCEDLYRICS");
    [eexists [_; _]; by norm_state|].
  eexists [_; _; _]; by norm_state.
Qed.

(** X3: when the track has embedded lyrics, [update_lyrics] publishes the
    field of highest priority ("unsynced lyrics", then "UNSYNCEDLYRICS",
    then "lyrics") and does nothing else: it reads lyrics fields only,
    neither artist nor title, no file, and calls no provider. *)
Theorem update_lyrics_embedded (G : glib) (H : host) (s : state)
    (lyrics : std_string) :
  embedded_lyrics H = Some lyrics ->
  exists reads,
    update_lyrics G H s = (Returned tt, log s (reads ++ [EvSetLyrics lyrics]))
    /\ forallb is_lyrics_read reads = true.
Proof.
  intros Hl. destruct (metadata_run H s) as (reads & Hm & Hreads).
  exists reads. split; [|done].
  unfold update_lyrics. unfold mbind at 1, M_bind, bind. rewrite Hm, Hl.
  unfold set_lyrics. by rewrite emit_log, log_log.
Qed.

Lemma update_lyrics_embedded_witness :
  exists reads,
    update_lyrics ascii_glib
      {| pl_find_meta := λ key,
           if bool_decide (key = "lyrics"%string) then Some (str "la") else None;
         conf_value := conf_value untagged_host;
         tf_compile := tf_compile untagged_host;
         tf_eval := tf_eval untagged_host;
         spawn_command_line_sync := spawn_command_line_sync untagged_host;
         soup_session_send := soup_session_send untagged_host;
         ofstream_opens := ofstream_opens untagged_host;
         gettext := str;
         lyrics_dir := lyrics_dir untagged_host |} empty_state
    = (Returned tt, log empty_state (reads ++ [EvSetLyrics (str "la")]))
    /\ forallb is_lyrics_read reads = true.
Proof.
  apply (update_lyrics_embedded ascii_glib _ empty_state (str "la")).
  reflexivity.
Defined.

(** X4: a cache hit.  With no embedded lyrics, artist and title present
    and a cache file for them, [update_lyrics] publishes the contents of
    the file: no "Loading..." is shown, no provider is called and no file
    is written. *)
Theorem update_lyrics_cache_hit (G : glib) (H : host) (s : state)
    (artist title lyrics : std_string) :
  no_embedded_lyrics H ->
  pl_find_meta H "artist" = Some artist ->
  pl_find_meta H "title" = Some title ->
  files s !! cached_filename (lyrics_dir H) artist title = Some lyrics ->
  update_lyrics G H s
  = (Returned tt,
     log s (metadata_reads
            ++ [EvFileGetContents (cached_filename (lyrics_dir H) artist title);
                EvSetLyrics lyrics])).
Proof.
  intros Hmeta Ha Ht Hhit. unfold update_lyrics.
  unfold mbind at 1, M_bind, bind. rewrite (metadata_none _ _ Hmeta).
  unfold mbind at 1, M_bind, bind. rewrite find_meta_run.
  unfold mbind at 1, M_bind, bind. rewrite find_meta_run, Ha, Ht.
  unfold mbind at 1, M_bind, bind. rewrite load_cached_run. simpl.
  rewrite Hhit. unfold set_lyrics. rewrite emit_log.
  by rewrite !log_log.
Qed.

Lemma update_lyrics_cache_hit_witness :
  (update_lyrics ascii_glib remix_host
     {| files := {[ cached_filename (lyrics_dir remix_host)
                      (str "Test/Artist") (str "Song (Remix)") := str "la" ]};
        trace := [] |}).1
  = Returned tt.
Proof.
  rewrite (update_lyrics_cache_hit ascii_glib remix_host _
             (str "Test/Artist") (str "Song (Remix)") (str "la")).
  - reflexivity.
  - repeat split.
  - reflexivity.
  - reflexivity.
  - apply lookup_singleton_eq.
Defined.

(** ** The orchestrator: what it writes *)

Lemma script_result_nonempty (G : glib) (H : host) (s : state) (lyrics : std_string) :
  (get_lyrics_from_script G H s).1 = Returned (Some lyrics) -> lyrics <> [].
Proof.
  unfold get_lyrics_from_script, conf_get_str, spawn_sync. unfold_M. simpl.
  match goal with |- context [bool_decide (?b = [])] => generalize b end.
  intros buf0. case_bool_decide; [done|].
  destruct (tf_compile _ _) as [code|]; simpl; [|done].
  destruct (tf_eval H code) as [len buf]. simpl.
  destruct (len <? 0); simpl; [done|].
  destruct (spawn_command_line_sync _ _) as [|out status]; simpl; [done|].
  case_bool_decide as Hout; simpl; [done|].
  destruct (negb (status =? 0)); simpl; [done|].
  destruct (negb (ustring_validate G out)); simpl; [done|].
  by intros [= <-].
Qed.

Lemma extract_lyrics_nonempty (doc lyrics : std_string) :
  extract_lyrics doc = Some lyrics -> lyrics <> [].
Proof.
  unfold extract_lyrics. destruct (regex_search lyrics_expr doc); [|done].
  case_bool_decide as Hnil; [done|].
  destruct (negb _); intros [= <-]; [|done].
  by intros [? ?]%app_eq_nil.
Qed.

(** The scrape provider calls the metadata and the fetch, nothing else,
    and leaves the files alone; lyrics it returns are not empty. *)
Lemma download_state (G : glib) (H : host) (s : state) :
  exists evs,
    (download_lyrics_from_azlyrics G H s).2
    = log s (EvFindMeta "artist" :: EvFindMeta "title" :: evs)
    /\ forallb is_http_get evs = true
    /\ (forall lyrics,
          (download_lyrics_from_azlyrics G H s).1 = Returned (Some lyrics) ->
          lyrics <> []).
Proof.
  remember (download_lyrics_from_azlyrics G H s) as r eqn:Hr.
  unfold download_lyrics_from_azlyrics in Hr.
  unfold mbind at 1, M_bind, bind in Hr. rewrite find_meta_run in Hr.
  unfold mbind at 1, M_bind, bind in Hr. rewrite find_meta_run in Hr.
  rewrite log_log in Hr. simpl in Hr.
  destruct (pl_find_meta H "artist") as [artist|];
    [|subst r; exists []; by split_and!].
  destruct (pl_find_meta H "title") as [title|];
    [|subst r; exists []; by split_and!].
  unfold mbind at 1, M_bind, bind in Hr.
  match type of Hr with
  | context [fetch_retry G H ?a ?t ?s0] =>
      destruct (fetch_retry_run G H a t s0) as (evs & Hs & Hevs & _);
      destruct (fetch_retry G H a t s0) as [[[doc|]|e|] s1]
  end; simpl in Hs; subst r s1; exists evs; rewrite log_log; simpl;
    split_and!; try done.
  intros lyrics [= Hl]. by apply extract_lyrics_nonempty in Hl.
Qed.

(** The provider loop writes at most the cache file of the track, and
    only lyrics that are not empty. *)
Lemma try_providers_files (G : glib) (H : host) (artist title : std_string)
    (s0 : state) :
  let r := try_providers H (providers G H) artist title s0 in
  let filename := cached_filename (lyrics_dir H) artist title in
  (files r.2 = files s0
   /\ (r.1 = Returned tt ->
       last (trace r.2) = Some (EvSetLyrics (gettext H "Lyrics not found"))
       \/ ofstream_opens H filename = false))
  \/ (exists lyrics tr,
        lyrics <> [] /\ ofstream_opens H filename = true
        /\ r.1 = Returned tt
        /\ files r.2 = <[filename := lyrics]> (files s0)
        /\ trace r.2 = tr ++ [EvSetLyrics lyrics; EvOfstream filename]).
Proof.
  cbv zeta. rewrite try_providers_run.
  pose proof (script_result_nonempty G H s0) as Hne1.
  destruct (script_returns G H s0) as (r1 & evs1 & Hscript & _).
  rewrite Hscript in Hne1 |- *. simpl in Hne1.
  destruct r1 as [lyrics|].
  { unfold published. simpl.
    destruct (ofstream_opens H _) eqn:Hopen.
    - right. exists lyrics. eexists. split_and!; try done. by apply Hne1.
    - left. split; [done|]. by right. }
  match goal with
  | |- context [download_lyrics_from_azlyrics G H ?s1] =>
      destruct (download_state G H s1) as (evs & Hs2 & _ & Hne2);
      destruct (download_lyrics_from_azlyrics G H s1) as [[[lyrics|]|e|] s2]
  end; simpl in *; subst s2.
  - unfold published. simpl.
    destruct (ofstream_opens H _) eqn:Hopen.
    + right. exists lyrics. eexists. split_and!; try done. by apply Hne2.
    + left. split; [done|]. by right.
  - left. split; [done|]. intros _. left.
    by rewrite (last_app_cons _ [] _).
  - left. by split.
  - left. by split.
Qed.

Lemma files_log (s : state) (evs : list event) : files (log s evs) = files s.
Proof. done. Qed.

Ltac norm_log :=
  unfold set_lyrics; rewrite ?emit_log, ?log_log, <- ?app_assoc; simpl.

(** One description of a run, by the lyrics at hand. *)
Lemma update_lyrics_cases (G : glib) (H : host) (s : state) :
  exists reads,
    forallb is_lyrics_read reads = true
    /\ update_lyrics G H s
       = match embedded_lyrics H with
         | Some lyrics => (Returned tt, log s (reads ++ [EvSetLyrics lyrics]))
         | None =>
             let s1 := log s (reads ++ [EvFindMeta "artist"; EvFindMeta "title"]) in
             match pl_find_meta H "artist", pl_find_meta H "title" with
             | Some artist, Some title =>
                 let filename := cached_filename (lyrics_dir H) artist title in
                 match files s !! filename with
                 | Some lyrics =>
                     (Returned tt,
                      log s1 [EvFileGetContents filename; EvSetLyrics lyrics])
                 | None =>
                     try_providers H (providers G H) artist title
                       (log s1 [EvFileGetContents filename;
                                EvSetLyrics (gettext H "Loading...")])
                 end
             | _, _ =>
                 (Returned tt, log s1 [EvSetLyrics (gettext H "Lyrics not found")])
             end
         end.
Proof.
  destruct (metadata_run H s) as (reads & Hm & Hreads).
  exists reads. split; [done|].
  unfold update_lyrics. unfold mbind at 1, M_bind, bind. rewrite Hm.
  destruct (embedded_lyrics H) as [lyrics|].
  { unfold set_lyrics. by rewrite emit_log, log_log. }
  unfold mbind at 1, M_bind, bind. rewrite find_meta_run.
  unfold mbind at 1, M_bind, bind. rewrite find_meta_run.
  cbv zeta.
  destruct (pl_find_meta H "artist") as [artist|]; [|by norm_log].
  destruct (pl_find_meta H "title") as [title|]; [|by norm_log].
  unfold mbind at 1, M_bind, bind. rewrite load_cached_run, !files_log.
  destruct (files s !! _) as [lyrics|]; [by norm_log|].
  unfold mbind at 1, M_bind, bind. unfold set_lyrics at 1.
  by rewrite emit_log, !log_log, <- !app_assoc.
Qed.

(** X5: [update_lyrics] changes at most one file, the cache file of the
    track, and removes none.  Either it leaves all files as they were, or
    the track has an artist and a title and no embedded lyrics,
    [load_cached_lyrics] has found nothing for it, the [ofstream] has
    opened, and the cache file now holds the lyrics that were shown last,
    which are not empty. *)
Theorem update_lyrics_writes (G : glib) (H : host) (s : state) :
  files (update_lyrics G H s).2 = files s
  \/ exists artist title lyrics tr,
       embedded_lyrics H = None
       /\ pl_find_meta H "artist" = Some artist
       /\ pl_find_meta H "title" = Some title
       /\ (load_cached_lyrics H artist title s).1 = Returned None
       /\ ofstream_opens H (cached_filename (lyrics_dir H) artist title) = true
       /\ lyrics <> []
       /\ (update_lyrics G H s).1 = Returned tt
       /\ trace (update_lyrics G H s).2
          = tr ++ [EvSetLyrics lyrics;
                   EvOfstream (cached_filename (lyrics_dir H) artist title)]
       /\ files (update_lyrics G H s).2
          = <[cached_filename (lyrics_dir H) artist title := lyrics]> (files s).
Proof.
  destruct (update_lyrics_cases G H s) as (reads & _ & ->).
  destruct (embedded_lyrics H); [by left|]. cbv zeta.
  destruct (pl_find_meta H "artist") as [artist|]; [|by left].
  destruct (pl_find_meta H "title") as [title|]; [|by left].
  destruct (files s !! _) eqn:Hmiss; [by left|].
  match goal with
  | |- context [try_providers H _ artist title ?s0] =>
      destruct (try_providers_files G H artist title s0)
        as [[Hf _]|(lyrics & tr & Hne & Hopen & Hret & Hf & Htr)]
  end.
  - by left.
  - right. exists artist, title, lyrics, tr. split_and!; try done.
    rewrite load_cached_run. by rewrite Hmiss.
Qed.

(** X6: resolved once, served from the cache afterwards.  If a run that
    starts without embedded lyrics and without cache file returns, and the
    cache file can be opened, then either it ended with "Lyrics not found"
    and no file, or it published and saved lyrics, and the next run
    publishes the same lyrics from the file without calling a provider. *)
Theorem update_lyrics_twice (G : glib) (H : host) (s s' : state)
    (artist title : std_string) :
  no_embedded_lyrics H ->
  pl_find_meta H "artist" = Some artist ->
  pl_find_meta H "title" = Some title ->
  files s !! cached_filename (lyrics_dir H) artist title = None ->
  ofstream_opens H (cached_filename (lyrics_dir H) artist title) = true ->
  update_lyrics G H s = (Returned tt, s') ->
  (files s' = files s
   /\ last (trace s') = Some (EvSetLyrics (gettext H "Lyrics not found")))
  \/ exists lyrics tr,
       lyrics <> []
       /\ trace s'
          = tr ++ [EvSetLyrics lyrics;
                   EvOfstream (cached_filename (lyrics_dir H) artist title)]
       /\ update_lyrics G H s'
          = (Returned tt,
             log s' (metadata_reads
                     ++ [EvFileGetContents
                           (cached_filename (lyrics_dir H) artist title);
                         EvSetLyrics lyrics])).
Proof.
  intros Hmeta Ha Ht Hmiss Hopen.
  rewrite (update_lyrics_searching G H s artist title Hmeta Ha Ht Hmiss).
  intros Hrun.
  destruct (try_providers_files G H artist title (searching H artist title s))
    as [[Hf Hlast]|(lyrics & tr & Hne & _ & _ & Hf & Htr)];
    rewrite Hrun in *; simpl in *.
  - left. split; [done|]. destruct Hlast as [?|?]; [done|done|congruence].
  - right. exists lyrics, tr. split_and!; [done..|].
    apply update_lyrics_cache_hit; try done.
    rewrite Hf. apply lookup_insert_eq.
Qed.

Lemma update_lyrics_twice_witness :
  exists s' lyrics tr,
    update_lyrics ascii_glib remix_host empty_state = (Returned tt, s')
    /\ trace s'
       = tr ++ [EvSetLyrics lyrics;
                EvOfstream (cached_filename (lyrics_dir remix_host)
                              (str "Test/Artist") (str "Song (Remix)"))]
    /\ update_lyrics ascii_glib remix_host s'
       = (Returned tt,
          log s' (metadata_reads
                  ++ [EvFileGetContents
                        (cached_filename (lyrics_dir remix_host)
                           (str "Test/Artist") (str "Song (Remix)"));
                      EvSetLyrics lyrics])).
Proof.
  destruct (update_lyrics ascii_glib remix_host empty_state) as [r s'] eqn:Hrun.
  assert (r = Returned tt) as -> by (vm_compute in Hrun; congruence).
  destruct (update_lyrics_twice ascii_glib remix_host empty_state s'
              (str "Test/Artist") (str "Song (Remix)"))
    as [[Hf Hlast]|(lyrics & tr & _ & Htr & Hnext)].
  - repeat split.
  - reflexivity.
  - reflexivity.
  - reflexivity.
  - reflexivity.
  - exact Hrun.
  - vm_compute in Hrun. injection Hrun as <-. vm_compute in Hlast. discriminate.
  - exists s', lyrics, tr. by split_and!.
Defined.

(** ** The fetch: a body within the cap *)

Lemma read_all_within (chunks : list std_string) (tail : list read_result)
    (res : std_string) (s : state) :
  Forall (λ c, c ≠ []) chunks ->
  tail = [] \/ (exists rest, tail = ReadBytes [] :: rest) ->
  Z.of_nat (length res) + Z.of_nat (length (concat chunks)) <= MAX_FILE_SIZE ->
  read_all ((ReadBytes <$> chunks) ++ tail) res s
  = (Returned (res ++ concat chunks), s).
Proof.
  intros Hne Htail. revert res.
  induction Hne as [|c chunks Hc _ IH]; intros res Hlen; simpl in *.
  - rewrite app_nil_r. by destruct Htail as [->|[rest ->]].
  - rewrite length_app in Hlen.
    assert (0 < Z.of_nat (length c)) by (destruct c; [done|simpl; lia]).
    destruct (0 <? Z.of_nat (length c)) eqn:Hpos; [|lia].
    destruct (Z.of_nat (length res) + Z.of_nat (length c) >? MAX_FILE_SIZE) eqn:Hbig;
      [lia|].
    rewrite IH; [by rewrite <- app_assoc|]. rewrite length_app. lia.
Qed.

(** X7: a 2xx answer whose body is at most 2^20 bytes long, the bound
    included, is returned whole: the pieces in the order they were read,
    up to the first read that returns 0; what the stream would give after
    that is not read. *)
Theorem fetch_file_as_chrome_body (H : host) (uri : std_string) (s : state)
    (chunks : list std_string) (tail : list read_result) :
  stream (soup_session_send H uri) = Some ((ReadBytes <$> chunks) ++ tail) ->
  tail = [] \/ (exists rest, tail = ReadBytes [] :: rest) ->
  (status_code (soup_session_send H uri) / 100 = 2)%N ->
  Forall (λ c, c ≠ []) chunks ->
  Z.of_nat (length (concat chunks)) <= 2 ^ 20 ->
  fetch_file_as_chrome H uri s
  = (Returned (Some (concat chunks)), log s [EvHttpGet uri]).
Proof.
  intros Hs Htail Hc Hne Hlen. unfold fetch_file_as_chrome. unfold_M. simpl.
  rewrite Hs, Hc. simpl.
  rewrite read_all_within; [done..|].
  simpl. change MAX_FILE_SIZE with (2 ^ 20). lia.
Qed.

Lemma fetch_file_as_chrome_body_witness :
  fetch_file_as_chrome
    {| pl_find_meta := pl_find_meta remix_host;
       conf_value := conf_value remix_host;
       tf_compile := tf_compile remix_host;
       tf_eval := tf_eval remix_host;
       spawn_command_line_sync := spawn_command_line_sync remix_host;
       soup_session_send := λ _,
         {| stream := Some ((ReadBytes <$> [str "<html>"; str "</html>"])
                            ++ [ReadBytes []; ReadError]);
            status_code := 204 |};
       ofstream_opens := ofstream_opens remix_host;
       gettext := str;
       lyrics_dir := lyrics_dir remix_host |} (str "u") empty_state
  = (Returned (Some (str "<html></html>")), log empty_state [EvHttpGet (str "u")]).
Proof.
  apply (fetch_file_as_chrome_body _ (str "u") empty_state
           [str "<html>"; str "</html>"] [ReadBytes []; ReadError]).
  - reflexivity.
  - right. by eexists.
  - reflexivity.
  - repeat constructor; discriminate.
  - vm_compute. discriminate.
Defined.

(** ** The retry loop: how often and what it asks *)

Lemma fetch_undelivered (H : host) (uri : std_string) (s : state) :
  never_delivers H ->
  fetch_file_as_chrome H uri s = (Returned None, log s [EvHttpGet uri]).
Proof.
  intros Hnd. unfold fetch_file_as_chrome. unfold_M. simpl.
  destruct (Hnd uri) as [-> | Hst]; [done|].
  destruct (stream _); [|done].
  apply N.eqb_neq in Hst. by rewrite Hst.
Qed.

(** A title has no bracket, or splits at its last bracket. *)
Lemma last_bracket_split (title : ustring) :
  no_bracket title = true
  \/ exists prefix b suffix,
       title = prefix ++ b :: suffix
       /\ is_bracket b = true /\ no_bracket suffix = true.
Proof.
  induction title as [|c title IH] using rev_ind; [by left|].
  destruct (is_bracket c) eqn:Hc.
  - right. by exists title, c, [].
  - destruct IH as [Hnb|(prefix & b & suffix & -> & Hb & Hs)].
    + left. unfold no_bracket in *. rewrite forallb_app, Hnb. simpl. by rewrite Hc.
    + right. exists prefix, b, (suffix ++ [c]). split_and!; [|done|].
      * by rewrite <- app_assoc.
      * unfold no_bracket in *. rewrite forallb_app, Hs. simpl. by rewrite Hc.
Qed.

Lemma filter_no_bracket (t : ustring) :
  no_bracket t = true -> List.filter is_bracket t = [].
Proof.
  induction t as [|c t IH]; simpl; [done|].
  intros [Hc Ht]%andb_prop. apply negb_true_iff in Hc. rewrite Hc. by apply IH.
Qed.

Lemma fetch_retry_gives_up (G : glib) (H : host) (artist title : ustring)
    (s : state) :
  never_delivers H ->
  exists evs,
    fetch_retry G H artist title s = (Returned None, log s evs)
    /\ forallb is_http_get evs = true
    /\ length evs = S (length (List.filter is_bracket title)).
Proof.
  intros Hnd. remember (length title) as n eqn:Hn. revert title s Hn.
  induction n as [n IH] using lt_wf_ind. intros title s ->.
  rewrite fetch_retry_step, (fetch_undelivered _ _ _ Hnd).
  set (uri := azl_url _ _).
  destruct (last_bracket_split title) as [Hnb|(prefix & b & suffix & -> & Hb & Hs)].
  - rewrite (drop_to_bracket_no_bracket _ Hnb). simpl.
    exists [EvHttpGet uri]. by rewrite (filter_no_bracket _ Hnb).
  - rewrite (drop_to_bracket_bracket _ _ _ Hb Hs).
    destruct (decide _) as [Hnil|_]; [by destruct prefix|].
    rewrite pop_back_snoc.
    destruct (IH (length prefix)) with (title := prefix)
      (s := log s [EvHttpGet uri]) as (evs & -> & Hevs & Hlen); [|done|].
    { rewrite length_app. simpl. lia. }
    exists (EvHttpGet uri :: evs). rewrite log_log. split_and!; [done..|].
    simpl. rewrite Hlen, List.filter_app. simpl. rewrite Hb.
    rewrite (filter_no_bracket _ Hs), length_app. simpl. lia.
Qed.

(** X8: when no request delivers a document, the loop gives up with the
    empty option after exactly one request more than the title has
    brackets: one for the title as it is and one after each bracket
    removed. *)
Theorem fetch_retry_attempts (G : glib) (H : host) (artist title : ustring)
    (s : state) :
  never_delivers H ->
  exists evs,
    fetch_retry G H artist title s = (Returned None, log s evs)
    /\ forallb is_http_get evs = true
    /\ length evs = S (length (List.filter is_bracket title)).
Proof. apply fetch_retry_gives_up. Qed.

Lemma fetch_retry_attempts_witness :
  exists evs,
    fetch_retry ascii_glib silent_host (uchar <$> str "artist")
      (uchar <$> str "song (live) [remastered]") empty_state
    = (Returned None, log empty_state evs)
    /\ forallb is_http_get evs = true
    /\ length evs = 5%nat.
Proof.
  destruct (fetch_retry_attempts ascii_glib silent_host
              (uchar <$> str "artist") (uchar <$> str "song (live) [remastered]")
              empty_state) as (evs & Hrun & Hevs & Hlen).
  - intros uri. right. vm_compute. discriminate.
  - exists evs. split_and!; [exact Hrun|exact Hevs|exact Hlen].
Defined.

Lemma drop_to_bracket_prefix (title : ustring) :
  drop_to_bracket title `prefix_of` title.
Proof.
  induction title as [|c title IH] using rev_ind.
  - by rewrite drop_to_bracket_step.
  - rewrite drop_to_bracket_step, last_snoc, pop_back_snoc.
    destruct (is_bracket c); [done|].
    by apply prefix_app_r.
Qed.

Lemma pop_back_prefix (title : ustring) : pop_back title `prefix_of` title.
Proof. exists (drop (length title - 1) title). unfold pop_back. by rewrite take_drop. Qed.

(** X9: every request of the retry loop goes to the lyrics page of the
    same normalized artist and of a normalized beginning of the title; the
    first one is for the whole title.  Nothing else is called and no file
    is touched. *)
Theorem fetch_retry_requests (G : glib) (H : host) (artist title : ustring)
    (s : state) :
  exists evs,
    (fetch_retry G H artist title s).2 = log s (request_for G artist title :: evs)
    /\ Forall (λ e, exists t, t `prefix_of` title /\ e = request_for G artist t) evs.
Proof.
  remember (length title) as n eqn:Hn. revert title s Hn.
  induction n as [n IH] using lt_wf_ind. intros title s ->.
  rewrite fetch_retry_step. fold (request_for G artist title).
  unfold request_for at 1.
  set (uri := azl_url _ _).
  pose proof (fetch_state H uri s) as Hst.
  destruct (fetch_file_as_chrome H uri s) as [[[doc|]|e|] s']; simpl in *; subst s';
    try by exists [].
  destruct (decide (drop_to_bracket title = [])) as [Hnil|Hne]; [by exists []|].
  destruct (IH _ (pop_drop_shorter _ Hne) _ (log s [EvHttpGet uri]) eq_refl)
    as (evs & -> & Hevs).
  exists (request_for G artist (pop_back (drop_to_bracket title)) :: evs).
  rewrite log_log. split; [done|].
  assert (pop_back (drop_to_bracket title) `prefix_of` title) as Hpre.
  { etransitivity; [apply pop_back_prefix|apply drop_to_bracket_prefix]. }
  constructor.
  - by eexists.
  - eapply Forall_impl; [exact Hevs|].
    intros e (t & Ht & ->). exists t. split; [|done]. by etransitivity.
Qed.

(** ** The scrape provider without artist or title *)

(** X10: when the artist or the title of the track is absent, the scrape
    provider returns the empty option after the two metadata reads: no
    request is sent. *)
Theorem download_without_identity (G : glib) (H : host) (s : state) :
  pl_find_meta H "artist" = None \/ pl_find_meta H "title" = None ->
  download_lyrics_from_azlyrics G H s
  = (Returned None, log s [EvFindMeta "artist"; EvFindMeta "title"]).
Proof.
  intros Habsent. unfold download_lyrics_from_azlyrics.
  unfold mbind at 1, M_bind, bind. rewrite find_meta_run.
  unfold mbind at 1, M_bind, bind. rewrite find_meta_run, log_log.
  destruct (pl_find_meta H "artist"), (pl_find_meta H "title");
    by destruct Habsent.
Qed.

Lemma download_without_identity_witness :
  download_lyrics_from_azlyrics ascii_glib untagged_host empty_state
  = (Returned None, log empty_state [EvFindMeta "artist"; EvFindMeta "title"]).
Proof.
  apply (download_without_identity ascii_glib untagged_host empty_state).
  left. reflexivity.
Defined.

(** ** Cleaning only deletes *)

Lemma regex_replace_n_sublist (n : nat) (r : regex) (s : std_string) :
  regex_replace_n n r [] s `sublist_of` s.
Proof.
  revert s. induction n as [|n IH]; intros s; [done|]. simpl.
  destruct (regex_search r s) as [m|] eqn:Hm; [|done].
  apply regex_search_split in Hm. rewrite Hm at 1.
  apply sublist_app; [done|].
  destruct (m_whole m) as [|w0 w]; [destruct (m_suffix m) as [|c s']|].
  - done.
  - simpl. by apply sublist_skip.
  - by apply sublist_inserts_l.
Qed.

(** A pattern that starts with a character is found only in a text that
    has the character. *)
Lemma regex_search_first_chr (c : ascii) (r : regex) (before s : std_string)
    (m : smatch) :
  regex_search_from (Cat (Chr c) r) before s = Some m -> c ∈ s.
Proof.
  revert before. induction s as [|x s IH]; intros before; simpl.
  - done.
  - unfold match_here. cbn [matches fst snd]. rewrite step_if_chr.
    unfold ascii_eqb. destruct (Ascii.eqb_spec x c) as [->|Hne].
    + intros _. by left.
    + rewrite fmap_nil. simpl. intros Hs%IH. by right.
Qed.

Lemma regex_replace_absent (c : ascii) (r : regex) (fmt s : std_string) :
  c ∉ s -> regex_replace s (Cat (Chr c) r) fmt = s.
Proof.
  intros Hc. unfold regex_replace. simpl.
  destruct (regex_search _ s) as [m|] eqn:Hm; [|done].
  by apply regex_search_first_chr in Hm.
Qed.

(** X11: the removal of the line-break tags and of the other tags only
    deletes characters: what is left is the text in its order with parts
    taken out.  A text without [<] and without [&] passes the three
    cleaning steps unchanged. *)
Theorem cleaning_only_deletes (lyrics : std_string) :
  regex_replace (regex_replace lyrics br_expr []) tag_expr [] `sublist_of` lyrics
  /\ ("<"%char ∉ lyrics -> "&"%char ∉ lyrics ->
      regex_replace
        (regex_replace (regex_replace lyrics br_expr []) tag_expr [])
        quot_expr [dquote]
      = lyrics).
Proof.
  split.
  - etransitivity; apply regex_replace_n_sublist.
  - intros Hlt Hamp.
    change br_expr with (Cat (Chr "<") (lit_then (str "br")
      (ws_then (Cat (Opt (Chr "/")) (ws_then (Chr ">")))))).
    change quot_expr with (Cat (Chr "&") (lit_then (str "quot") (Chr ";"))).
    unfold tag_expr.
    rewrite (regex_replace_absent "<" _ [] lyrics Hlt).
    rewrite (regex_replace_absent "<" _ [] lyrics Hlt).
    by rewrite (regex_replace_absent "&" _ [dquote] lyrics Hamp).
Qed.

Lemma cleaning_only_deletes_witness :
  regex_replace
    (regex_replace (regex_replace (str "la la") br_expr []) tag_expr [])
    quot_expr [dquote]
  = str "la la".
Proof.
  apply (proj2 (cleaning_only_deletes (str "la la"))).
  - vm_compute. intros Hin. repeat (apply elem_of_cons in Hin as [Hin|Hin];
      [discriminate|]). by apply elem_of_nil in Hin.
  - vm_compute. intros Hin. repeat (apply elem_of_cons in Hin as [Hin|Hin];
      [discriminate|]). by apply elem_of_nil in Hin.
Defined.

(** ** mkpath *)

Lemma pending_prefixes_nil (before : std_string) : pending_prefixes before [] = [].
Proof. done. Qed.

Lemma pending_prefixes_cons (before rest : std_string) (c : ascii) :
  pending_prefixes before (c :: rest)
  = (if ascii_eqb c "/" then if bool_decide (before = []) then [] else [before]
     else [])
    ++ pending_prefixes (before ++ [c]) rest.
Proof.
  unfold pending_prefixes. simpl length. rewrite <- cons_seq.
  rewrite filter_cons.
  replace ((before ++ [c]) ++ rest) with (before ++ c :: rest)
    by by rewrite <- app_assoc.
  replace (length (before ++ [c])) with (S (length before))
    by (rewrite length_app; simpl; lia).
  assert ((before ++ c :: rest) !! length before = Some c) as Hc
    by apply list_lookup_middle, eq_refl.
  rewrite Hc. unfold ascii_eqb.
  destruct (Ascii.eqb_spec c "/") as [->|Hne].
  - case_bool_decide as Hnil.
    + subst before. by rewrite decide_False by (intros [? _]; done).
    + rewrite decide_True; [|split; [by destruct before|done]].
      simpl. by rewrite take_app_length.
  - by rewrite decide_False by (intros [_ [= ?]]; done).
Qed.

Lemma mkpath_from_run (errno_of : gset std_string -> std_string -> option Z)
    (mode : Z) (rest before : std_string) (d : dir_state) :
  let r := mkpath_from errno_of mode before rest d in
  exists made,
    made `prefix_of` pending_prefixes before rest
    /\ mkdir_calls r.2 = mkdir_calls d ++ ((λ p, (p, mode)) <$> made)
    /\ dirs d ⊆ dirs r.2
    /\ ((forall ds dir e, errno_of ds dir = Some e -> e = EEXIST) ->
        r.1 = 0 /\ made = pending_prefixes before rest)
    /\ ((forall ds dir e, errno_of ds dir = Some e -> e = EEXIST /\ dir ∈ ds) ->
        forall p, p ∈ pending_prefixes before rest -> p ∈ dirs r.2)
    /\ (r.1 <> 0 ->
        r.1 <> EEXIST
        /\ exists dir, last made = Some dir /\ errno_of (dirs r.2) dir = Some r.1).
Proof.
  revert before d. induction rest as [|c rest IH]; intros before d; cbv zeta.
  - exists []. simpl. rewrite app_nil_r. split_and!; try done.
    intros _ p Hp. by apply elem_of_nil in Hp.
  - rewrite pending_prefixes_cons. simpl mkpath_from.
    destruct (ascii_eqb c "/"); [|apply IH].
    case_bool_decide as Hnil; [apply IH|].
    unfold mkdir. destruct (errno_of (dirs d) before) as [errno|] eqn:Herr.
    + destruct (errno =? EEXIST) eqn:He; simpl negb; cbv iota.
      * apply Z.eqb_eq in He. subst errno.
        match goal with
        | |- context [mkpath_from _ _ _ _ ?d1] =>
            destruct (IH (before ++ [c]) d1)
              as (made & Hpre & Hcalls & Hdirs & Hok & Hin & Hfail)
        end.
        exists (before :: made). simpl in *. split_and!.
        -- by apply prefix_cons.
        -- by rewrite Hcalls, <- app_assoc.
        -- done.
        -- intros Hex. destruct (Hok Hex) as [-> ->]. done.
        -- intros Hex p [->|Hp]%elem_of_cons; [|by apply Hin].
           apply Hdirs. by apply (Hex _ _ _ Herr).
        -- intros Hr. destruct (Hfail Hr) as (? & dir & Hl & Hd).
           split; [done|]. exists dir. split; [|done].
           destruct made; [done|]. done.
      * apply Z.eqb_neq in He. exists [before]. simpl. split_and!.
        -- by apply prefix_cons, prefix_nil.
        -- done.
        -- done.
        -- intros Hex. by apply Hex in Herr.
        -- intros Hex. by apply Hex in Herr as [? _].
        -- intros _. split; [done|]. by exists before.
    + match goal with
      | |- context [mkpath_from _ _ _ _ ?d1] =>
          destruct (IH (before ++ [c]) d1)
            as (made & Hpre & Hcalls & Hdirs & Hok & Hin & Hfail)
      end.
      exists (before :: made). simpl in *. split_and!.
      * by apply prefix_cons.
      * by rewrite Hcalls, <- app_assoc.
      * etransitivity; [|exact Hdirs]. apply union_subseteq_r.
      * intros Hex. destruct (Hok Hex) as [-> ->]. done.
      * intros Hex p [->|Hp]%elem_of_cons; [|by apply Hin].
        apply Hdirs. apply elem_of_union_l. by apply elem_of_singleton.
      * intros Hr. destruct (Hfail Hr) as (? & dir & Hl & Hd).
        split; [done|]. exists dir. split; [|done].
        destruct made; [done|]. done.
Qed.

Lemma pending_prefixes_all (name : std_string) :
  pending_prefixes [] name = slash_prefixes name.
Proof. done. Qed.

Lemma mkpath_from_in_turn (errno_of : gset std_string -> std_string -> option Z)
    (mode : Z) (rest before : std_string) (d : dir_state) :
  mkpath_from errno_of mode before rest d
  = mkdir_in_turn errno_of mode (pending_prefixes before rest) d.
Proof.
  revert before d. induction rest as [|c rest IH]; intros before d; [done|].
  rewrite pending_prefixes_cons. simpl mkpath_from.
  destruct (ascii_eqb c "/"); [|apply IH].
  case_bool_decide as Hnil; [apply IH|].
  simpl. destruct (mkdir errno_of before mode d) as [[errno|] d1]; [|apply IH].
  destruct (negb (errno =? EEXIST)); [done|apply IH].
Qed.

Lemma mkdir_in_turn_run (errno_of : gset std_string -> std_string -> option Z)
    (mode : Z) (paths : list std_string) (d : dir_state) :
  let r := mkdir_in_turn errno_of mode paths d in
  exists made,
    made `prefix_of` paths
    /\ mkdir_calls r.2 = mkdir_calls d ++ ((λ p, (p, mode)) <$> made)
    /\ ((forall ds dir e, errno_of ds dir = Some e -> e = EEXIST) ->
        r.1 = 0 /\ made = paths)
    /\ (r.1 <> 0 ->
        r.1 <> EEXIST
        /\ exists dir, last made = Some dir /\ errno_of (dirs r.2) dir = Some r.1)
    /\ ((forall ds dir, errno_of ds dir <> Some 0) -> r.1 = 0 -> made = paths).
Proof.
  revert d. induction paths as [|p paths IH]; intros d; cbv zeta.
  - exists []. simpl. rewrite app_nil_r. by split_and!.
  - simpl. unfold mkdir. destruct (errno_of (dirs d) p) as [errno|] eqn:Herr.
    + destruct (errno =? EEXIST) eqn:He; simpl negb; cbv iota.
      * match goal with
        | |- context [mkdir_in_turn _ _ _ ?d1] =>
            destruct (IH d1) as (made & Hpre & Hcalls & Hok & Hfail & Hzero)
        end.
        exists (p :: made). simpl in *. split_and!.
        -- by apply prefix_cons.
        -- by rewrite Hcalls, <- app_assoc.
        -- intros Hex. destruct (Hok Hex) as [-> ->]. done.
        -- intros Hr. destruct (Hfail Hr) as (? & dir & Hl & Hd).
           split; [done|]. exists dir. split; [|done].
           destruct made; [done|]. done.
        -- intros Hnz Hr. by rewrite (Hzero Hnz Hr).
      * apply Z.eqb_neq in He. exists [p]. simpl. split_and!.
        -- by apply prefix_cons, prefix_nil.
        -- done.
        -- intros Hex. by apply Hex in Herr.
        -- intros _. split; [done|]. by exists p.
        -- intros Hnz ->. by apply Hnz in Herr.
    + match goal with
      | |- context [mkdir_in_turn _ _ _ ?d1] =>
          destruct (IH d1) as (made & Hpre & Hcalls & Hok & Hfail & Hzero)
      end.
      exists (p :: made). simpl in *. split_and!.
      * by apply prefix_cons.
      * by rewrite Hcalls, <- app_assoc.
      * intros Hex. destruct (Hok Hex) as [-> ->]. done.
      * intros Hr. destruct (Hfail Hr) as (? & dir & Hl & Hd).
        split; [done|]. exists dir. split; [|done].
        destruct made; [done|]. done.
      * intros Hnz Hr. by rewrite (Hzero Hnz Hr).
Qed.

(** The loop stops at a call that cannot but fail. *)
Lemma mkdir_in_turn_stops (errno_of : gset std_string -> std_string -> option Z)
    (mode : Z) (passed : list std_string) (dir : std_string)
    (later : list std_string) (e : Z) (d : dir_state) :
  (forall ds p e', p ∈ passed -> errno_of ds p = Some e' -> e' = EEXIST) ->
  (forall ds, errno_of ds dir = Some e) ->
  e <> EEXIST ->
  let r := mkdir_in_turn errno_of mode (passed ++ dir :: later) d in
  r.1 = e
  /\ mkdir_calls r.2 = mkdir_calls d ++ ((λ p, (p, mode)) <$> passed ++ [dir]).
Proof.
  intros Hpass Hdir He. revert d.
  induction passed as [|p passed IH]; intros d; cbv zeta; simpl; unfold mkdir.
  - rewrite Hdir. apply Z.eqb_neq in He. by rewrite He.
  - assert (forall ds p' e', p' ∈ passed -> errno_of ds p' = Some e' -> e' = EEXIST)
      as Hpass' by (intros ds p' e' Hin; apply Hpass; by right).
    destruct (errno_of (dirs d) p) as [errno|] eqn:Herr.
    + apply Hpass in Herr; [|by left]. subst errno. simpl negb. cbv iota.
      destruct (IH Hpass' {| dirs := dirs d;
                             mkdir_calls := mkdir_calls d ++ [(p, mode)] |})
        as [Hr Hcalls].
      split; [done|]. simpl in Hcalls. by rewrite Hcalls, <- app_assoc.
    + destruct (IH Hpass' {| dirs := {[p]} ∪ dirs d;
                             mkdir_calls := mkdir_calls d ++ [(p, mode)] |})
        as [Hr Hcalls].
      split; [done|]. simpl in Hcalls. by rewrite Hcalls, <- app_assoc.
Qed.

(** X12: [mkpath] calls [mkdir], with the given mode, for the non-empty
    beginnings of the name that end just before a [/], shortest first, and
    for nothing else: not for the text after the last [/].  It goes from
    one to the next as [mkdir_in_turn] does: on after a call that succeeds
    or fails with [EEXIST], and out at the first call that fails with
    another [errno], which it returns.  So a call that fails in another
    way, after calls that can fail with [EEXIST] only, is the last call
    and gives the result; when no call fails in another way all the calls
    are made and the result is 0; and a result of 0 comes after all the
    calls, [errno] never being 0 after a failure. *)
Theorem mkpath_calls (errno_of : gset std_string -> std_string -> option Z)
    (name : std_string) (mode : Z) (d : dir_state) :
  mkpath errno_of name mode d
  = mkdir_in_turn errno_of mode (slash_prefixes name) d
  /\ (forall passed dir later e,
        slash_prefixes name = passed ++ dir :: later ->
        (forall ds p e', p ∈ passed -> errno_of ds p = Some e' -> e' = EEXIST) ->
        (forall ds, errno_of ds dir = Some e) ->
        e <> EEXIST ->
        (mkpath errno_of name mode d).1 = e
        /\ mkdir_calls (mkpath errno_of name mode d).2
           = mkdir_calls d ++ ((λ p, (p, mode)) <$> passed ++ [dir]))
  /\ exists made,
       made `prefix_of` slash_prefixes name
       /\ mkdir_calls (mkpath errno_of name mode d).2
          = mkdir_calls d ++ ((λ p, (p, mode)) <$> made)
       /\ ((forall ds dir e, errno_of ds dir = Some e -> e = EEXIST) ->
           (mkpath errno_of name mode d).1 = 0 /\ made = slash_prefixes name)
       /\ ((mkpath errno_of name mode d).1 <> 0 ->
           (mkpath errno_of name mode d).1 <> EEXIST
           /\ exists dir,
                last made = Some dir
                /\ errno_of (dirs (mkpath errno_of name mode d).2) dir
                   = Some (mkpath errno_of name mode d).1)
       /\ ((forall ds dir, errno_of ds dir <> Some 0) ->
           (mkpath errno_of name mode d).1 = 0 -> made = slash_prefixes name).
Proof.
  assert (mkpath errno_of name mode d
          = mkdir_in_turn errno_of mode (slash_prefixes name) d) as Hrun
    by (unfold mkpath; by rewrite mkpath_from_in_turn, pending_prefixes_all).
  split_and!.
  - exact Hrun.
  - intros passed dir later e Hsplit Hpass Hdir He. rewrite Hrun, Hsplit.
    by apply mkdir_in_turn_stops.
  - rewrite Hrun. apply mkdir_in_turn_run.
Qed.

Lemma mkpath_calls_witness :
  (mkpath exists_errno (str "/home/u/.cache/deadbeef/lyrics/x") 493
     {| dirs := {[ str "/home" ]}; mkdir_calls := [] |}).1 = 0
  /\ (exists made,
        made = [str "/home"; str "/home/u"; str "/home/u/.cache";
                str "/home/u/.cache/deadbeef"; str "/home/u/.cache/deadbeef/lyrics"]
        /\ mkdir_calls
             (mkpath exists_errno (str "/home/u/.cache/deadbeef/lyrics/x") 493
                {| dirs := {[ str "/home" ]}; mkdir_calls := [] |}).2
           = (λ p, (p, 493)) <$> made)
  /\ (mkpath (blocked_errno (str "/home/u")) (str "/home/u/.cache/deadbeef/lyrics/") 493
        {| dirs := {[ str "/home" ]}; mkdir_calls := [] |}).1 = ENOTDIR
  /\ mkdir_calls
       (mkpath (blocked_errno (str "/home/u")) (str "/home/u/.cache/deadbeef/lyrics/") 493
          {| dirs := {[ str "/home" ]}; mkdir_calls := [] |}).2
     = [(str "/home", 493); (str "/home/u", 493); (str "/home/u/.cache", 493)].
Proof.
  destruct (mkpath_calls exists_errno (str "/home/u/.cache/deadbeef/lyrics/x") 493
              {| dirs := {[ str "/home" ]}; mkdir_calls := [] |})
    as (_ & _ & made & _ & Hcalls & Hok & _).
  destruct Hok as [Hr Hmade].
  { intros ds dir e. unfold exists_errno. by case_decide; intros [= <-]. }
  split; [exact Hr|]. split.
  { exists made. split; [|exact Hcalls]. rewrite Hmade. vm_compute. reflexivity. }
  apply (proj1 (proj2 (mkpath_calls (blocked_errno (str "/home/u"))
                         (str "/home/u/.cache/deadbeef/lyrics/") 493
                         {| dirs := {[ str "/home" ]};
                            mkdir_calls := [] |}))
           [str "/home"; str "/home/u"] (str "/home/u/.cache")
           [str "/home/u/.cache/deadbeef"; str "/home/u/.cache/deadbeef/lyrics"]
           ENOTDIR).
  - vm_compute. reflexivity.
  - intros ds p e' Hin. unfold blocked_errno.
    apply elem_of_cons in Hin as [->|Hin].
    + destruct (bool_decide (str "/home" = str "/home/u")) eqn:E1;
        [vm_compute in E1; discriminate|].
      destruct (bool_decide (str "/home/u" ++ ["/"%char] `prefix_of` str "/home"))
        eqn:E2; [vm_compute in E2; discriminate|].
      destruct (decide (str "/home" ∈ ds)); intros Herr; congruence.
    + apply list_elem_of_singleton in Hin as ->.
      rewrite bool_decide_true by done. intros Herr. congruence.
  - intros ds. vm_compute. reflexivity.
  - discriminate.
Defined.

(** X13: on a system where [mkdir] fails only for what exists already,
    [mkpath] returns 0 and afterwards every beginning of the name that
    ends before a [/] exists; no directory is lost.  So
    [ensure_lyrics_path_exists] leaves the whole path of [lyrics_dir],
    which ends with [/], in place. *)
Theorem mkpath_creates (errno_of : gset std_string -> std_string -> option Z)
    (name : std_string) (mode : Z) (d : dir_state) :
  (forall ds dir e, errno_of ds dir = Some e -> e = EEXIST /\ dir ∈ ds) ->
  (mkpath errno_of name mode d).1 = 0
  /\ dirs d ⊆ dirs (mkpath errno_of name mode d).2
  /\ (forall p, p ∈ slash_prefixes name -> p ∈ dirs (mkpath errno_of name mode d).2)
  /\ (forall p, p ∈ slash_prefixes name ->
      p ∈ dirs (ensure_lyrics_path_exists errno_of name d)).
Proof.
  intros Hex.
  destruct (mkpath_from_run errno_of mode name [] d)
    as (made & _ & _ & Hdirs & Hok & Hin & _).
  destruct (mkpath_from_run errno_of 493 name [] d)
    as (made' & _ & _ & _ & _ & Hin' & _).
  split_and!.
  - apply Hok. intros ds dir e He. by apply Hex in He as [? _].
  - done.
  - by apply Hin.
  - by apply Hin'.
Qed.

Lemma mkpath_creates_witness :
  str "/home/u/.cache/deadbeef/lyrics"
  ∈ dirs (ensure_lyrics_path_exists exists_errno
            (str "/home/u/.cache/deadbeef/lyrics/")
            {| dirs := {[ str "/home" ]}; mkdir_calls := [] |}).
Proof.
  apply (mkpath_creates exists_errno (str "/home/u/.cache/deadbeef/lyrics/") 493
           {| dirs := {[ str "/home" ]}; mkdir_calls := [] |}).
  - intros ds dir e. unfold exists_errno. by case_decide; intros [= <-].
  - vm_compute. repeat first [by left | right].
Defined.

(** ** The "remove from cache" action *)

Lemma remove_item_lookup (lyrics_dir : std_string) (unlinks : std_string -> bool)
    (fs : gmap std_string std_string) (current : playlist_item) (fn : std_string) :
  (fn ∉ selected_keys lyrics_dir [current] ->
   remove_item lyrics_dir unlinks fs current !! fn = fs !! fn)
  /\ (fn ∈ selected_keys lyrics_dir [current] -> unlinks fn = true ->
      remove_item lyrics_dir unlinks fs current !! fn = None)
  /\ remove_item lyrics_dir unlinks fs current ⊆ fs.
Proof.
  unfold remove_item, selected_keys, is_cached. simpl.
  destruct (pl_is_selected current); [|split_and!; [done| |done]].
  2: { by intros ?%elem_of_nil. }
  destruct (item_artist current) as [artist|]; [|split_and!; [done| |done]].
  2: { by intros ?%elem_of_nil. }
  destruct (item_title current) as [title|]; [|split_and!; [done| |done]].
  2: { by intros ?%elem_of_nil. }
  simpl. case_bool_decide as Hc.
  - destruct (unlinks _) eqn:Hu; split_and!.
    + intros Hfn. apply lookup_delete_ne. intros <-. apply Hfn. by left.
    + intros ->%list_elem_of_singleton _. apply lookup_delete_eq.
    + apply delete_subseteq.
    + done.
    + intros ->%list_elem_of_singleton. congruence.
    + done.
  - split_and!; [done| |done].
    intros ->%list_elem_of_singleton _.
    destruct (fs !! _) eqn:Hl; [|done]. destruct Hc. by eexists.
Qed.

Lemma selected_keys_cons (lyrics_dir : std_string) (it : playlist_item)
    (items : list playlist_item) :
  selected_keys lyrics_dir (it :: items)
  = selected_keys lyrics_dir [it] ++ selected_keys lyrics_dir items.
Proof. unfold selected_keys. simpl. by destruct (if pl_is_selected it then _ else _). Qed.

Lemma remove_items_lookup (lyrics_dir : std_string) (unlinks : std_string -> bool)
    (items : list playlist_item) (fs : gmap std_string std_string) (fn : std_string) :
  (fn ∉ selected_keys lyrics_dir items ->
   foldl (remove_item lyrics_dir unlinks) fs items !! fn = fs !! fn)
  /\ (fn ∈ selected_keys lyrics_dir items -> unlinks fn = true ->
      foldl (remove_item lyrics_dir unlinks) fs items !! fn = None)
  /\ foldl (remove_item lyrics_dir unlinks) fs items ⊆ fs.
Proof.
  revert fs. induction items as [|it items IH]; intros fs.
  - simpl. split_and!; [done| |done]. by intros ?%elem_of_nil.
  - rewrite selected_keys_cons. cbn [foldl].
    destruct (remove_item_lookup lyrics_dir unlinks fs it fn) as (H1 & H2 & H3).
    destruct (IH (remove_item lyrics_dir unlinks fs it)) as (IH1 & IH2 & IH3).
    split_and!.
    + intros Hfn. rewrite IH1, H1; [done| |]; intros Hin; apply Hfn;
        apply elem_of_app; auto.
    + intros [Hin|Hin]%elem_of_app Hu; [|by apply IH2].
      destruct (decide (fn ∈ selected_keys lyrics_dir items)); [by apply IH2|].
      rewrite IH1 by done. by apply H2.
    + by etransitivity.
Qed.

(** X14: the action returns 0.  Outside the selection context, or
    without a current playlist, it changes no file.  In the selection
    context it never adds or changes a file and leaves alone every file
    that is not the cache file of a selected item with artist and title;
    the cache files of those items are gone afterwards when [remove]
    succeeds, so that [is_cached] is false for every selected item. *)
Theorem remove_from_cache_action_removes (lyrics_dir : std_string)
    (unlinks : std_string -> bool) (selection ctx : Z)
    (playlist : option (list playlist_item)) (fs : gmap std_string std_string) :
  let r := remove_from_cache_action lyrics_dir unlinks selection ctx playlist fs in
  r.1 = 0
  /\ r.2 ⊆ fs
  /\ (ctx <> selection \/ playlist = None -> r.2 = fs)
  /\ (forall items, ctx = selection -> playlist = Some items ->
      (forall fn, fn ∉ selected_keys lyrics_dir items -> r.2 !! fn = fs !! fn)
      /\ ((forall fn, unlinks fn = true) ->
          forall it, it ∈ items -> pl_is_selected it = true ->
          is_cached lyrics_dir r.2 (item_artist it) (item_title it) = false)).
Proof.
  cbv zeta. unfold remove_from_cache_action.
  destruct (ctx =? selection) eqn:Hctx.
  - apply Z.eqb_eq in Hctx. destruct playlist as [items|]; simpl.
    + destruct (remove_items_lookup lyrics_dir unlinks items fs []) as (_ & _ & Hsub).
      split_and!; [done|done| |].
      * intros [?|?]; done.
      * intros items' _ [= <-]. split.
        -- intros fn. apply remove_items_lookup.
        -- intros Hu it Hit Hsel. unfold is_cached.
           destruct (item_artist it) as [artist|] eqn:Ha; [|done].
           destruct (item_title it) as [title|] eqn:Ht; [|done].
           apply bool_decide_eq_false. intros [l Hl].
           destruct (remove_items_lookup lyrics_dir unlinks items fs
                       (cached_filename lyrics_dir artist title)) as (_ & Hgone & _).
           rewrite Hgone in Hl; [done| |done].
           unfold selected_keys. apply list_elem_of_omap. exists it.
           by rewrite Hsel, Ha, Ht.
    + split_and!; try done; by intros items _ [=].
  - apply Z.eqb_neq in Hctx. simpl. split_and!; try done; by intros items Heq.
Qed.

Lemma remove_from_cache_action_removes_witness :
  (remove_from_cache_action (str "/c/") (λ _, true) 1 1
     (Some example_playlist) example_cache).2
  !! str "/c/Queen-Innuendo" = Some (str "innuendo")
  /\ is_cached (str "/c/")
       (remove_from_cache_action (str "/c/") (λ _, true) 1 1
          (Some example_playlist) example_cache).2
       (Some (str "AC/DC")) (Some (str "Thunderstruck")) = false.
Proof.
  destruct (remove_from_cache_action_removes (str "/c/") (λ _, true) 1 1
              (Some example_playlist) example_cache)
    as (_ & _ & _ & Hsel).
  destruct (Hsel example_playlist eq_refl eq_refl) as [Hkeep Hgone].
  split.
  - rewrite Hkeep; [reflexivity|].
    vm_compute. intros Hin. repeat (apply elem_of_cons in Hin as [Hin|Hin];
      [discriminate|]). by apply elem_of_nil in Hin.
  - apply (Hgone (λ _, eq_refl)
             {| pl_is_selected := true; item_artist := Some (str "AC/DC");
                item_title := Some (str "Thunderstruck") |}).
    + by left.
    + reflexivity.
Defined.

(** ** The normalizer and concatenation *)

(** X15: [alphadigitize] goes through concatenation, so the normalized
    beginning of a text is a beginning of the normalized text (the
    queries of the retry loop are beginnings of the first one), and the
    result is never longer than the text. *)
Theorem alphadigitize_app (G : glib) (a b : ustring) :
  alphadigitize G (a ++ b) = alphadigitize G a ++ alphadigitize G b
  /\ alphadigitize G a `prefix_of` alphadigitize G (a ++ b)
  /\ (length (alphadigitize G a) <= length a)%nat.
Proof.
  rewrite !alphadigitize_filter, List.filter_app. split_and!.
  - done.
  - by eexists.
  - apply List.filter_length_le.
Qed.

(** ** The script provider: what it calls *)

Ltac script_events :=
  split_and!; try done; simpl; try lia;
  intros e Hin Hsp;
  repeat (apply elem_of_cons in Hin as [->|Hin]; [done|]);
  by apply elem_of_nil in Hin.

(** X16: the script provider reads the configuration first and calls
    nothing but the template engine and the spawn; it spawns at most one
    process, as its last call, and returns lyrics only if it did.  It
    reads no metadata itself, sends no request and leaves the files as
    they are. *)
Theorem script_spawns_once (G : glib) (H : host) (s : state) :
  exists evs,
    (get_lyrics_from_script G H s).2
    = log s (EvConfGetStr "lyricbar.customcmd" :: evs)
    /\ forallb is_script_event evs = true
    /\ (length (List.filter is_spawn evs) <= 1)%nat
    /\ (forall e, e ∈ evs -> is_spawn e = true -> last evs = Some e)
    /\ (forall lyrics,
          (get_lyrics_from_script G H s).1 = Returned (Some lyrics) ->
          length (List.filter is_spawn evs) = 1%nat).
Proof.
  unfold get_lyrics_from_script, conf_get_str, spawn_sync. unfold_M. simpl.
  match goal with |- context [bool_decide (?b = [])] => generalize b end.
  intros buf0. case_bool_decide; [exists []; script_events|].
  destruct (tf_compile _ _) as [code|]; simpl;
    [|eexists [_]; norm_state; script_events].
  destruct (tf_eval H code) as [len buf]. simpl.
  destruct (len <? 0); simpl; [eexists [_; _]; norm_state; script_events|].
  destruct (spawn_command_line_sync _ _) as [|out status]; simpl;
    [eexists [_; _; _]; norm_state; script_events|].
  repeat case_match; eexists [_; _; _]; norm_state; script_events.
Qed.

Lemma script_spawns_once_witness :
  exists evs,
    (get_lyrics_from_script ascii_glib (script_host "La la" 0) empty_state).2
    = log empty_state (EvConfGetStr "lyricbar.customcmd" :: evs)
    /\ length (List.filter is_spawn evs) = 1%nat.
Proof.
  destruct (script_spawns_once ascii_glib (script_host "La la" 0) empty_state)
    as (evs & Hs & _ & _ & _ & Hone).
  exists evs. split; [exact Hs|].
  apply (Hone (str "La la")). vm_compute. reflexivity.
Defined.

(** ** The orchestrator: nothing found, and what is shown *)

(** X17: the run in which nothing is found.  For a track with artist and
    title, no embedded lyrics, no cache file, no script configured and a
    site that delivers no page, [update_lyrics] shows "Loading...", reads
    the configuration, sends one request more than the lower-cased title
    has brackets, shows "Lyrics not found" and returns; no file is
    written. *)
Theorem update_lyrics_not_found (G : glib) (H : host) (s : state)
    (artist title : std_string) :
  no_embedded_lyrics H ->
  pl_find_meta H "artist" = Some artist ->
  pl_find_meta H "title" = Some title ->
  files s !! cached_filename (lyrics_dir H) artist title = None ->
  conf_value H "lyricbar.customcmd" = None ->
  never_delivers H ->
  exists evs,
    update_lyrics G H s
    = (Returned tt,
       log s (metadata_reads
              ++ [EvFileGetContents (cached_filename (lyrics_dir H) artist title);
                  EvSetLyrics (gettext H "Loading...");
                  EvConfGetStr "lyricbar.customcmd";
                  EvFindMeta "artist"; EvFindMeta "title"]
              ++ evs ++ [EvSetLyrics (gettext H "Lyrics not found")]))
    /\ forallb is_http_get evs = true
    /\ length evs
       = S (length (List.filter is_bracket
                      (ustring_lowercase G (ustring_chars G title)))).
Proof.
  intros Hmeta Ha Ht Hmiss Hconf Hnd.
  rewrite (update_lyrics_searching G H s artist title Hmeta Ha Ht Hmiss).
  rewrite try_providers_run.
  assert (forall s0, get_lyrics_from_script G H s0
                     = (Returned None, log s0 [EvConfGetStr "lyricbar.customcmd"]))
    as ->.
  { intros s0. unfold get_lyrics_from_script, conf_get_str. unfold_M. simpl.
    by rewrite Hconf. }
  unfold download_lyrics_from_azlyrics.
  unfold mbind at 1, M_bind, bind. rewrite find_meta_run.
  unfold mbind at 1, M_bind, bind. rewrite find_meta_run, Ha, Ht.
  unfold mbind at 1, M_bind, bind.
  match goal with
  | |- context [fetch_retry G H ?a ?t ?s0] =>
      destruct (fetch_retry_gives_up G H a t s0 Hnd) as (evs & -> & Hevs & Hlen)
  end.
  exists evs. split_and!; [|done..].
  unfold searching, mret, M_ret, ret. rewrite !log_log.
  by do 2 f_equal.
Qed.

Lemma update_lyrics_not_found_witness :
  exists evs,
    update_lyrics ascii_glib silent_host empty_state
    = (Returned tt,
       log empty_state
         (metadata_reads
          ++ [EvFileGetContents
                (cached_filename (lyrics_dir silent_host)
                   (str "Test/Artist") (str "Song (Remix)"));
              EvSetLyrics (str "Loading...");
              EvConfGetStr "lyricbar.customcmd";
              EvFindMeta "artist"; EvFindMeta "title"]
          ++ evs ++ [EvSetLyrics (str "Lyrics not found")]))
    /\ length evs = 3%nat.
Proof.
  destruct (update_lyrics_not_found ascii_glib silent_host empty_state
              (str "Test/Artist") (str "Song (Remix)"))
    as (evs & Hrun & _ & Hlen).
  - repeat split.
  - reflexivity.
  - reflexivity.
  - reflexivity.
  - reflexivity.
  - intros uri. right. vm_compute. discriminate.
  - exists evs. split; [exact Hrun|exact Hlen].
Defined.

Lemma published_texts_app (a b : list event) :
  published_texts (a ++ b) = published_texts a ++ published_texts b.
Proof. apply omap_app. Qed.

Lemma published_texts_none (p : event -> bool) (evs : list event) :
  (forall text, p (EvSetLyrics text) = false) ->
  forallb p evs = true -> published_texts evs = [].
Proof.
  intros Hp. induction evs as [|e evs IH]; [done|]. simpl.
  intros [He Hevs]%andb_prop. unfold published_texts in *. simpl.
  rewrite (IH Hevs). destruct e; try done. by rewrite Hp in He.
Qed.

(** What the provider loop shows: the lyrics or "Lyrics not found" when it
    returns, nothing when it is left by a fault. *)
Lemma try_providers_texts (G : glib) (H : host) (artist title : std_string)
    (s0 : state) :
  let r := try_providers H (providers G H) artist title s0 in
  exists evs,
    r.2 = {| files := files r.2; trace := trace s0 ++ evs |}
    /\ ((exists text, r.1 = Returned tt /\ published_texts evs = [text])
        \/ (r.1 <> Returned tt /\ published_texts evs = [])).
Proof.
  cbv zeta. rewrite try_providers_run.
  destruct (script_returns G H s0) as (r1 & evs1 & -> & Hevs1).
  assert (published_texts (EvConfGetStr "lyricbar.customcmd" :: evs1) = [])
    as Ht1 by by apply (published_texts_none is_script_event).
  remember (EvConfGetStr "lyricbar.customcmd" :: evs1) as ev1 eqn:Hev1.
  clear Hev1 Hevs1.
  destruct r1 as [lyrics|].
  { exists (ev1 ++ [EvSetLyrics lyrics;
                    EvOfstream (cached_filename (lyrics_dir H) artist title)]).
    unfold published, log; simpl. rewrite <- ?app_assoc.
    split; [done|]. left. exists lyrics. split; [done|].
    by rewrite published_texts_app, Ht1. }
  match goal with
  | |- context [download_lyrics_from_azlyrics G H ?s1] =>
      destruct (download_state G H s1) as (evs & Hs2 & Hevs & _);
      destruct (download_lyrics_from_azlyrics G H s1) as [[[lyrics|]|e|] s2]
  end; simpl in Hs2; subst s2.
  all: assert (published_texts
                 (EvFindMeta "artist" :: EvFindMeta "title" :: evs) = []) as Ht2
    by (apply (published_texts_none
                 (λ e, match e with EvSetLyrics _ => false | _ => true end));
        [done|simpl; clear -Hevs; induction evs as [|e evs IH]; [done|];
         simpl in *; apply andb_prop in Hevs as [He Hevs];
         rewrite (IH Hevs); by destruct e]).
  all: remember (EvFindMeta "artist" :: EvFindMeta "title" :: evs) as ev2
    eqn:Hev2; clear Hev2 Hevs.
  - exists (ev1 ++ ev2 ++ [EvSetLyrics lyrics;
                           EvOfstream (cached_filename (lyrics_dir H) artist title)]).
    unfold published, log; simpl. rewrite <- ?app_assoc.
    split; [done|]. left. exists lyrics. split; [done|].
    by rewrite !published_texts_app, Ht1, Ht2.
  - exists (ev1 ++ ev2 ++ [EvSetLyrics (gettext H "Lyrics not found")]).
    unfold log; simpl. rewrite <- ?app_assoc. split; [done|].
    left. eexists. split; [done|].
    by rewrite !published_texts_app, Ht1, Ht2.
  - exists (ev1 ++ ev2). unfold log; simpl. rewrite <- ?app_assoc.
    split; [done|]. right. split; [discriminate|].
    by rewrite !published_texts_app, Ht1, Ht2.
  - exists (ev1 ++ ev2). unfold log; simpl. rewrite <- ?app_assoc.
    split; [done|]. right. split; [discriminate|].
    by rewrite !published_texts_app, Ht1, Ht2.
Qed.

(** X18: what the display is given.  A run that returns hands one text to
    [set_lyrics], or "Loading..." and then one text; a run that is left
    by a fault of the fetch has shown "Loading..." and nothing after it.
    No text is shown after the final one. *)
Theorem update_lyrics_shows (G : glib) (H : host) (s : state) :
  exists evs,
    trace (update_lyrics G H s).2 = trace s ++ evs
    /\ (((update_lyrics G H s).1 = Returned tt
         /\ exists text,
              published_texts evs = [text]
              \/ published_texts evs = [gettext H "Loading..."; text])
        \/ ((update_lyrics G H s).1 <> Returned tt
            /\ published_texts evs = [gettext H "Loading..."])).
Proof.
  destruct (update_lyrics_cases G H s) as (reads & Hreads & ->).
  assert (published_texts reads = []) as Hr
    by by apply (published_texts_none is_lyrics_read).
  destruct (embedded_lyrics H) as [lyrics|].
  { exists (reads ++ [EvSetLyrics lyrics]). split; [done|]. left.
    split; [done|]. exists lyrics. left.
    by rewrite published_texts_app, Hr. }
  cbv zeta. set (ids := [EvFindMeta "artist"; EvFindMeta "title"]).
  destruct (pl_find_meta H "artist") as [artist|].
  2: { exists ((reads ++ ids) ++ [EvSetLyrics (gettext H "Lyrics not found")]).
       rewrite log_log. split; [done|].
       left. split; [done|]. eexists. left.
       by rewrite !published_texts_app, Hr. }
  destruct (pl_find_meta H "title") as [title|].
  2: { exists ((reads ++ ids) ++ [EvSetLyrics (gettext H "Lyrics not found")]).
       rewrite log_log. split; [done|].
       left. split; [done|]. eexists. left.
       by rewrite !published_texts_app, Hr. }
  set (fn := cached_filename (lyrics_dir H) artist title).
  destruct (files s !! fn) as [lyrics|].
  { exists ((reads ++ ids) ++ [EvFileGetContents fn; EvSetLyrics lyrics]).
    rewrite log_log. split; [done|].
    left. split; [done|]. exists lyrics. left.
    by rewrite !published_texts_app, Hr. }
  match goal with
  | |- context [try_providers H _ artist title ?s0] =>
      destruct (try_providers_texts G H artist title s0) as (evs & Hs & Hcls)
  end.
  rewrite Hs.
  exists (((reads ++ ids)
           ++ [EvFileGetContents fn; EvSetLyrics (gettext H "Loading...")])
          ++ evs).
  split; [unfold log; simpl; by rewrite <- ?app_assoc|].
  rewrite !published_texts_app, Hr. simpl.
  destruct Hcls as [(text & Hret & ->)|[Hnot ->]].
  - left. split; [done|]. exists text. by right.
  - right. by split.
Qed.
